(** * Graceful restart of database workloads: a model of [main.go]

    The program lists every pod of a cluster, keeps those whose name
    contains [DatabaseMatch], and restarts the controller that owns each
    of them (or replaces the pod itself when it has no owner), recording
    what it restarted in the slice [restarted].

    The Kubernetes client is an interface here ([Clientset]); the model
    threads the cluster through every call, logs each request it issues,
    and bounds the polling loop of [restartPod] by a fuel argument. *)

From Stdlib Require Import ZArith Lia Ascii.
From stdpp Require Import base list strings gmap.

Local Open Scope Z_scope.

(** ** Constants of [main.go] *)

Definition DatabaseMatch : string := "database".
Definition ValidNameMaxLength : nat := 255.
(** [time.Second], in nanoseconds as in Go's [time.Duration]. *)
Definition Second : Z := 1000000000.
Definition WaitForRestartTimeout : Z := 300 * Second.
Definition ConfigRestartInterval : Z := 2.
Definition ConfigNameSuffixLength : nat := 5.

(** ** API objects: the fields the program reads or writes *)

Record OwnerReference := mkOwnerReference {
  Kind : string;
  OwnerName : string
}.

Record ObjectMeta := mkObjectMeta {
  Name : string;
  Namespace : string;
  Labels : gmap string string;
  (** a Go map that may be [nil] *)
  Annotations : option (gmap string string);
  OwnerReferences : list OwnerReference
}.

(** [v1.PodPhase] is a string type; its zero value is the empty
    string. *)
Definition PodPhase : Type := string.
Definition PodPending : PodPhase := "Pending".
Definition PodRunning : PodPhase := "Running".
Definition PodSucceeded : PodPhase := "Succeeded".
Definition PodFailed : PodPhase := "Failed".
Definition PodUnknown : PodPhase := "Unknown".

Record Container := mkContainer {
  ContainerName : string;
  Image : string
}.

Record PodSpec := mkPodSpec {
  Containers : list Container
}.

Record Pod := mkPod {
  PodMeta : ObjectMeta;
  Spec : PodSpec;
  Phase : PodPhase
}.

(** Deployments, DaemonSets, StatefulSets and ReplicaSets: object
    metadata plus the metadata of the pod template. *)
Record Controller := mkController {
  Meta : ObjectMeta;
  TemplateMeta : ObjectMeta
}.

#[global] Instance OwnerReference_eq_dec : EqDecision OwnerReference.
Proof. solve_decision. Defined.

(** Go's [error]: [None] is [nil]. *)
Definition error := option string.

(** A Go pair [(value, err)] of which exactly one side is meaningful. *)
Inductive result (A : Type) :=
| Ok (a : A)
| Err (e : string).
Arguments Ok {A} a.
Arguments Err {A} e.

(** ** Requests against the cluster *)

Inductive Verb := VGet | VUpdate | VCreate | VDelete.
Inductive Resource :=
  Deployments | DaemonSets | StatefulSets | ReplicaSets | Pods.

#[global] Instance Verb_eq_dec : EqDecision Verb.
Proof. solve_decision. Defined.
#[global] Instance Resource_eq_dec : EqDecision Resource.
Proof. solve_decision. Defined.

Record Call := mkCall {
  callVerb : Verb;
  callResource : Resource;
  callNamespace : string;
  callName : string
}.

#[global] Instance Call_eq_dec : EqDecision Call.
Proof. solve_decision. Defined.

Definition isMutating (c : Call) : bool :=
  match callVerb c with
  | VGet => false
  | _ => true
  end.

(** What the program uses of [kubernetes.Clientset], of
    [k8s.io/apimachinery/pkg/util/rand] and of package [time], over a
    cluster state [W]. *)
Class Clientset (W : Type) := {
  Apps_Get : Resource → string → string → W → result Controller * W;
  Apps_Update : Resource → string → Controller → W → error * W;
  Pods_Create : string → Pod → W → result Pod * W;
  Pods_Get : string → string → W → result Pod * W;
  Pods_Delete : string → string → W → error * W;
  rand_String : nat → W → string * W;
  time_Now : W → Z;
  time_Sleep : Z → W → W;
  time_Format_RFC3339 : Z → string
}.

(** ** Pure helpers *)

Definition getResourceType (name : string) : string :=
  if decide (name = "ReplicaSet") then "ReplicaSet"
  else if decide (name = "Deployment") then "Deployment"
  else if decide (name = "StatefulSet") then "StatefulSet"
  else if decide (name = "DaemonSet") then "DaemonSet"
  else if decide (name = "") then "Pod"
  else "unsupported".

Definition newSuffixPodName (name suffix : string) : string :=
  name +:+ "-" +:+ suffix.

(** [strings.HasPrefix] and [strings.Contains] on byte strings. *)
Fixpoint strings_HasPrefix (s prefix : string) {struct prefix} : bool :=
  match prefix, s with
  | EmptyString, _ => true
  | String _ _, EmptyString => false
  | String p prefix', String c s' =>
      if decide (c = p) then strings_HasPrefix s' prefix' else false
  end.

Fixpoint strings_Contains (s substr : string) : bool :=
  strings_HasPrefix s substr ||
  match s with
  | EmptyString => false
  | String _ s' => strings_Contains s' substr
  end.

(** [slices.Contains] on a slice of strings. *)
Definition slices_Contains (s : list string) (v : string) : bool :=
  bool_decide (v ∈ s).

(** The name under which [restartPod] creates the replacement
    (lines 231-235): [pod.Name[:len(pod.Name)-ConfigNameSuffixLength]]
    is the byte prefix [String.substring 0 _]. *)
Definition replacementName (name suffix : string) : string :=
  if decide (ValidNameMaxLength < String.length name)%nat
  then newSuffixPodName
         (String.substring 0 (String.length name - ConfigNameSuffixLength) name)
         suffix
  else newSuffixPodName name suffix.

Definition LF : string := String (Ascii.ascii_of_nat 10) EmptyString.

(** The ledger key of an owner reference (line 179). *)
Definition matchKey (ownerRef : OwnerReference) (pod : Pod) : string :=
  OwnerName ownerRef +:+ "|" +:+ Kind ownerRef +:+ "|"
    +:+ Namespace (PodMeta pod).

Definition setRestartedAt (c : Controller) (stamp : string) : Controller :=
  let t := TemplateMeta c in
  let annotations :=
    match Annotations t with
    | None => ∅
    | Some m => m
    end in
  {| Meta := Meta c;
     TemplateMeta :=
       {| Name := Name t; Namespace := Namespace t; Labels := Labels t;
          Annotations :=
            Some (<["kubectl.kubernetes.io/restartedAt" := stamp]> annotations);
          OwnerReferences := OwnerReferences t |} |}.

(** ** The program *)

Section State.
Context {W : Type}.

(** The cluster, the requests issued so far (oldest first) and the
    lines printed so far. *)
Record St := mkSt {
  world : W;
  calls : list Call;
  stdout : list string
}.

(** State passing; [None] only when the polling loop runs out of fuel. *)
Definition M (A : Type) : Type := St → option (A * St).


Definition ret {A} (a : A) : M A := λ st, Some (a, st).
Definition bind {A B} (m : M A) (k : A → M B) : M B :=
  λ st, match m st with
        | Some (a, st') => k a st'
        | None => None
        end.

End State.

Arguments St W : clear implicits.
Arguments M W A : clear implicits.

Notation "'let*' x ':=' m 'in' k" := (bind m (λ x, k))
  (at level 10, x pattern, m at level 100, k at level 200).

Section Program.
Context {W : Type} {api : Clientset W}.

Definition request {A} (c : Call) (f : W → A * W) : M W A :=
  λ st, let '(a, w) := f (world st) in
        Some (a, {| world := w; calls := calls st ++ [c];
                    stdout := stdout st |}).

Definition Printf (line : string) : M W unit :=
  λ st, Some (tt, {| world := world st; calls := calls st;
                     stdout := stdout st ++ [line] |}).

Definition timeNow : M W Z := λ st, Some (time_Now (world st), st).

Definition timeSleep (d : Z) : M W unit :=
  λ st, Some (tt, {| world := time_Sleep d (world st); calls := calls st;
                     stdout := stdout st |}).

Definition randString (n : nat) : M W string :=
  λ st, let '(s, w) := rand_String n (world st) in
        Some (s, {| world := w; calls := calls st; stdout := stdout st |}).

Definition getController (r : Resource) (namespace name : string)
  : M W (result Controller) :=
  request (mkCall VGet r namespace name) (Apps_Get r namespace name).

Definition updateController (r : Resource) (namespace : string)
    (c : Controller) : M W error :=
  request (mkCall VUpdate r namespace (Name (Meta c)))
          (Apps_Update r namespace c).

(** The common body of [restartDeployment], [restartDaemonSet] and
    [restartStatefulSet], which differ in the resource only. *)
Definition restartController (r : Resource) (name namespace : string)
  : M W error :=
  let* got := getController r namespace name in
  match got with
  | Err e => ret (Some e)
  | Ok obj =>
      let* now := timeNow in
      updateController r namespace
        (setRestartedAt obj (time_Format_RFC3339 now))
  end.

Definition restartDeployment := restartController Deployments.
Definition restartDaemonSet := restartController DaemonSets.
Definition restartStatefulSet := restartController StatefulSets.

Fixpoint restartReplicaSet_owners (ownerRefs : list OwnerReference)
    (namespace : string) : M W error :=
  match ownerRefs with
  | [] => ret None
  | ownerRef :: rest =>
      if decide (getResourceType (Kind ownerRef) = "Deployment")
      then restartDeployment (OwnerName ownerRef) namespace
      else restartReplicaSet_owners rest namespace
  end.

Definition restartReplicaSet (name namespace : string) : M W error :=
  let* got := getController ReplicaSets namespace name in
  match got with
  | Err e => ret (Some e)
  | Ok rs => restartReplicaSet_owners (OwnerReferences (Meta rs)) namespace
  end.

Definition deletePod (name namespace : string) : M W error :=
  request (mkCall VDelete Pods namespace name) (Pods_Delete namespace name).

Definition isPodRunning (name namespace : string) : M W bool :=
  let* got := request (mkCall VGet Pods namespace name)
                      (Pods_Get namespace name) in
  match got with
  | Err _ => ret false
  | Ok pod =>
      if decide (Phase pod = PodRunning) then ret true
      else if decide (Phase pod = PodSucceeded ∨ Phase pod = PodFailed)
      then ret false
      else ret false
  end.

(** The [for] loop of [restartPod] (lines 252-262); one unit of fuel
    per iteration. *)
Fixpoint restartPod_wait (fuel : nat) (start : Z) (pod instance : Pod)
  : M W error :=
  match fuel with
  | O => λ _, None
  | S fuel' =>
      let* now := timeNow in
      if decide (WaitForRestartTimeout < now - start)
      then
        let* _ := Printf ("timed out waiting for Pod to restart: "
                    +:+ Name (PodMeta instance) +:+ " in namespace: "
                    +:+ Namespace (PodMeta instance) +:+ LF) in
        ret None
      else
        let* running := isPodRunning (Name (PodMeta instance))
                                     (Namespace (PodMeta instance)) in
        if running
        then
          let* _ := Printf ("replacing pod: " +:+ Name (PodMeta pod)
                      +:+ " with " +:+ Name (PodMeta instance)
                      +:+ " in namespace "
                      +:+ Namespace (PodMeta instance) +:+ LF) in
          deletePod (Name (PodMeta pod)) (Namespace (PodMeta pod))
        else
          let* _ := timeSleep (ConfigRestartInterval * Second) in
          restartPod_wait fuel' start pod instance
  end.

Definition newPodOf (pod : Pod) (newPodName : string) : Pod :=
  {| PodMeta := {| Name := newPodName;
                   Namespace := Namespace (PodMeta pod);
                   Labels := Labels (PodMeta pod);
                   Annotations := None;
                   OwnerReferences := [] |};
     Spec := Spec pod;
     Phase := "" |}.

Definition restartPod (fuel : nat) (pod : Pod) : M W error :=
  let* suffix := randString (ConfigNameSuffixLength - 1) in
  let newPodName := replacementName (Name (PodMeta pod)) suffix in
  let newPod := newPodOf pod newPodName in
  let* created :=
    request (mkCall VCreate Pods (Namespace (PodMeta newPod))
                    (Name (PodMeta newPod)))
            (Pods_Create (Namespace (PodMeta newPod)) newPod) in
  match created with
  | Err e => ret (Some e)
  | Ok instance =>
      let* start := timeNow in
      restartPod_wait fuel start pod instance
  end.

Definition restartResource (fuel : nat) (resourceType name : string)
    (pod : Pod) : M W error :=
  if decide (resourceType = "ReplicaSet")
  then restartReplicaSet name (Namespace (PodMeta pod))
  else if decide (resourceType = "Deployment")
  then restartDeployment name (Namespace (PodMeta pod))
  else if decide (resourceType = "StatefulSet")
  then restartStatefulSet name (Namespace (PodMeta pod))
  else if decide (resourceType = "DaemonSet")
  then restartDaemonSet name (Namespace (PodMeta pod))
  else if decide (resourceType = "Pod")
  then restartPod fuel pod
  else ret None.

(** The [for] loop of [restartResourceFromPod] (lines 172-191).  The
    slice behind the pointer [restarted] is passed in and handed back,
    also when the loop leaves with an error. *)
Fixpoint restartResourceFromPod_owners (fuel : nat) (pod : Pod)
    (ownerRefs : list OwnerReference) (restarted : list string)
  : M W (error * list string) :=
  match ownerRefs with
  | [] => ret (None, restarted)
  | ownerRef :: rest =>
      let resourceType := getResourceType (Kind ownerRef) in
      if decide (resourceType = "unknown")
      then
        let* _ := Printf ("skipping restart unknown resource type for pod: "
                    +:+ Name (PodMeta pod) +:+ LF) in
        restartResourceFromPod_owners fuel pod rest restarted
      else
        let match_ := matchKey ownerRef pod in
        if decide (resourceType ≠ "Pod")
        then
          if slices_Contains restarted match_
          then
            let* _ := Printf ("skipping already restarted resource: "
                        +:+ match_ +:+ LF) in
            restartResourceFromPod_owners fuel pod rest restarted
          else
            let* err := restartResource fuel resourceType
                          (OwnerName ownerRef) pod in
            match err with
            | Some e => ret (Some e, restarted)
            | None =>
                restartResourceFromPod_owners fuel pod rest
                  (restarted ++ [match_])
            end
        else restartResourceFromPod_owners fuel pod rest restarted
  end.

Definition restartResourceFromPod (fuel : nat) (restarted : list string)
    (pod : Pod) : M W (error * list string) :=
  let ownerRefs := OwnerReferences (PodMeta pod) in
  if decide (length ownerRefs = 0%nat)
  then
    let* err := restartResource fuel "Pod" "" pod in
    match err with
    | Some e => ret (Some e, restarted)
    | None =>
        restartResourceFromPod_owners fuel pod ownerRefs
          (restarted ++ [Name (PodMeta pod)])
    end
  else restartResourceFromPod_owners fuel pod ownerRefs restarted.

Record podError := mkPodError {
  name : string;
  restartError : string
}.

(** Lines 81-86 of [main]: what the loop does with a pod that passed
    the guard. *)
Definition main_restart (fuel : nat) (pod : Pod)
    (allErrs : list podError) (restarted : list string)
  : M W (list podError * list string) :=
  let* _ := Printf ("executing graceful restart on pod: "
              +:+ Name (PodMeta pod) +:+ LF) in
  let* out := restartResourceFromPod fuel restarted pod in
  match fst out with
  | Some e =>
      ret (allErrs ++ [mkPodError (Name (PodMeta pod)) e], snd out)
  | None => ret (allErrs, snd out)
  end.

(** The [for] loop of [main] (lines 75-87) over [pods.Items]. *)
Fixpoint main_pods (fuel : nat) (items : list Pod)
    (allErrs : list podError) (restarted : list string)
  : M W (list podError * list string) :=
  match items with
  | [] => ret (allErrs, restarted)
  | pod :: rest =>
      if negb (strings_Contains (Name (PodMeta pod)) DatabaseMatch)
      then main_pods fuel rest allErrs restarted
      else
        let* acc := main_restart fuel pod allErrs restarted in
        main_pods fuel rest (fst acc) (snd acc)
  end.

(** [main_restart] on every pod of a list, in order. *)
Fixpoint restartEach (fuel : nat) (pods : list Pod)
    (allErrs : list podError) (restarted : list string)
  : M W (list podError * list string) :=
  match pods with
  | [] => ret (allErrs, restarted)
  | pod :: rest =>
      let* acc := main_restart fuel pod allErrs restarted in
      restartEach fuel rest (fst acc) (snd acc)
  end.

End Program.

(** ** A stub client with canned answers

    The cluster is the list [controllers] and never changes; the state is
    the clock alone.  [Get] and [Update] succeed on the controllers
    listed, [Create] and [Delete] always succeed, and a pod is reported
    running exactly when [podsStart] is set. *)

Module Stub.

Record Config := mkConfig {
  controllers : list (Resource * Controller);
  podsStart : bool
}.

Definition isController (r : Resource) (namespace name : string)
    (entry : Resource * Controller) : bool :=
  bool_decide (fst entry = r) &&
  bool_decide (Namespace (Meta (snd entry)) = namespace) &&
  bool_decide (Name (Meta (snd entry)) = name).

Definition findController (cfg : Config) (r : Resource) (namespace name : string)
  : option Controller :=
  snd <$> List.find (isController r namespace name) (controllers cfg).

Definition token (n : nat) : string :=
  Nat.iter n (String "x"%char) EmptyString.

Definition clientset (cfg : Config) : Clientset Z := {|
  Apps_Get r namespace name w :=
    match findController cfg r namespace name with
    | Some c => (Ok c, w)
    | None => (Err "not found", w)
    end;
  Apps_Update r namespace c w :=
    match findController cfg r namespace (Name (Meta c)) with
    | Some _ => (None, w)
    | None => (Some "not found", w)
    end;
  Pods_Create namespace pod w :=
    (Ok {| PodMeta := PodMeta pod; Spec := Spec pod; Phase := PodPending |},
     w);
  Pods_Get namespace name w :=
    (Ok {| PodMeta := mkObjectMeta name namespace ∅ None [];
           Spec := mkPodSpec [];
           Phase := if podsStart cfg then PodRunning else PodPending |},
     w);
  Pods_Delete namespace name w := (None, w);
  rand_String n w := (token n, w);
  time_Now w := w;
  time_Sleep d w := w + d;
  time_Format_RFC3339 _ := "2006-01-02T15:04:05Z"
|}.

Definition start : St Z := mkSt 0 [] [].

(** Fixtures in the spirit of [test/test.yaml]. *)
Definition meta (name namespace : string) (owners : list OwnerReference)
  : ObjectMeta := mkObjectMeta name namespace ∅ None owners.

Definition controller (name namespace : string)
    (owners : list OwnerReference) : Controller :=
  mkController (meta name namespace owners) (meta "" "" []).

Definition pod (name namespace : string) (owners : list OwnerReference)
  : Pod := mkPod (meta name namespace owners) (mkPodSpec []) PodRunning.

Definition deployOwner : OwnerReference :=
  mkOwnerReference "Deployment" "nginx-database".

(** One Deployment behind two ReplicaSets, and a ReplicaSet that has
    no owner. *)
Definition rollout : Config := {|
  controllers :=
    [ (Deployments, controller "nginx-database" "default" []);
      (ReplicaSets,
       controller "nginx-database-5d59d67564" "default" [deployOwner]);
      (ReplicaSets,
       controller "nginx-database-7c5ddbdf54" "default" [deployOwner]);
      (ReplicaSets, controller "nginx-database-bare" "default" []) ];
  podsStart := true
|}.

Definition podOld : Pod :=
  pod "nginx-database-5d59d67564-x7k2p" "default"
      [mkOwnerReference "ReplicaSet" "nginx-database-5d59d67564"].
Definition podOld' : Pod :=
  pod "nginx-database-5d59d67564-q9wzt" "default"
      [mkOwnerReference "ReplicaSet" "nginx-database-5d59d67564"].
Definition podNew : Pod :=
  pod "nginx-database-7c5ddbdf54-b4mtn" "default"
      [mkOwnerReference "ReplicaSet" "nginx-database-7c5ddbdf54"].
Definition podBare : Pod :=
  pod "nginx-database-bare-h2x8s" "default"
      [mkOwnerReference "ReplicaSet" "nginx-database-bare"].
Definition podJob : Pod :=
  pod "database-backup-28391-ksl2v" "default"
      [mkOwnerReference "Job" "database-backup-28391"].
Definition podSts : Pod :=
  pod "nginx-database-0" "default"
      [mkOwnerReference "StatefulSet" "nginx-database"].
Definition podSts' : Pod :=
  pod "nginx-database-1" "default"
      [mkOwnerReference "StatefulSet" "nginx-database"].
Definition podAlpha : Pod := pod "nginx-pod-database-alpha" "default" [].
Definition podAlphaStaging : Pod :=
  pod "nginx-pod-database-alpha" "staging" [].

(** A cluster without controllers, in which a replacement pod never
    starts. *)
Definition stuck : Config := {| controllers := []; podsStart := false |}.

(** A pod name of 251 bytes, within the 253 that the API accepts. *)
Definition longName : string :=
  "database-" +:+ Nat.iter 242 (String "a"%char) EmptyString.

End Stub.

(** ** The workloads of [test/test.yaml]

    A DaemonSet, a Deployment and a StatefulSet with "database" in their
    names, the Deployment [nginx-deploy] and the ownerless pod
    [nginx-pod-database-alpha], with pods as their controllers name
    them. *)

Module Manifest.

Definition workloads : Stub.Config := {|
  Stub.controllers :=
    [ (DaemonSets, Stub.controller "nginx-database-db01" "default" []);
      (Deployments, Stub.controller "nginx-database" "default" []);
      (StatefulSets, Stub.controller "nginx-database" "default" []);
      (Deployments, Stub.controller "nginx-deploy" "default" []) ];
  Stub.podsStart := true
|}.

Definition client : Clientset Z := Stub.clientset workloads.

(** The same cluster with a quota that refuses every new pod. *)
Definition refusing : Clientset Z := {|
  Apps_Get := Apps_Get (Clientset := client);
  Apps_Update := Apps_Update (Clientset := client);
  Pods_Create _ _ w := (Err "pods is forbidden: exceeded quota", w);
  Pods_Get := Pods_Get (Clientset := client);
  Pods_Delete := Pods_Delete (Clientset := client);
  rand_String := rand_String (Clientset := client);
  time_Now := time_Now (Clientset := client);
  time_Sleep := time_Sleep (Clientset := client);
  time_Format_RFC3339 := time_Format_RFC3339 (Clientset := client)
|}.

Definition stsOwner : OwnerReference :=
  mkOwnerReference "StatefulSet" "nginx-database".
Definition dsOwner : OwnerReference :=
  mkOwnerReference "DaemonSet" "nginx-database-db01".

Definition podDs : Pod :=
  Stub.pod "nginx-database-db01-7xk4q" "default" [dsOwner].
Definition podDeploy : Pod :=
  Stub.pod "nginx-deploy-66b6c48dd5-2wq8z" "default"
           [mkOwnerReference "ReplicaSet" "nginx-deploy-66b6c48dd5"].
(** A pod whose only owner reference carries no kind. *)
Definition podKindless : Pod :=
  Stub.pod "nginx-database-adopted" "default"
           [mkOwnerReference "" "nginx-database"].

Definition podStsStaging : Pod :=
  Stub.pod "nginx-database-0" "staging" [stsOwner].

(** The StatefulSet once more, in a second namespace. *)
Definition twoNamespaces : Stub.Config := {|
  Stub.controllers :=
    [ (StatefulSets, Stub.controller "nginx-database" "default" []);
      (StatefulSets, Stub.controller "nginx-database" "staging" []) ];
  Stub.podsStart := true
|}.

Definition listed : list Pod :=
  [podDs; Stub.podSts; podDeploy; Stub.podSts'; Stub.podAlpha].

(** A cluster without controllers in which a replacement pod is pending
    for 400 seconds and running from then on. *)
Definition late : Clientset Z := {|
  Apps_Get := Apps_Get (Clientset := Stub.clientset Stub.stuck);
  Apps_Update := Apps_Update (Clientset := Stub.clientset Stub.stuck);
  Pods_Create := Pods_Create (Clientset := Stub.clientset Stub.stuck);
  Pods_Get namespace name w :=
    (Ok {| PodMeta := Stub.meta name namespace [];
           Spec := mkPodSpec [];
           Phase := if decide (400 * Second ≤ w) then PodRunning
                    else PodPending |},
     w);
  Pods_Delete := Pods_Delete (Clientset := Stub.clientset Stub.stuck);
  rand_String := rand_String (Clientset := Stub.clientset Stub.stuck);
  time_Now := time_Now (Clientset := Stub.clientset Stub.stuck);
  time_Sleep := time_Sleep (Clientset := Stub.clientset Stub.stuck);
  time_Format_RFC3339 :=
    time_Format_RFC3339 (Clientset := Stub.clientset Stub.stuck)
|}.

End Manifest.

(** Membership in a list written out, and its refutation. *)
Ltac elem_listed :=
  repeat first [apply list_elem_of_here | apply list_elem_of_further].
Ltac entry_cases :=
  repeat case_decide; try lia; exfalso;
  rewrite ?elem_of_app, ?list_elem_of_singleton in *;
  intuition congruence.
Ltac elem_absurd H :=
  repeat (apply elem_of_cons in H as [H | H]; [discriminate H |]);
  by apply elem_of_nil in H.

(** ** Derived notions used in the statements *)

(** The pods that pass the guard of line 77. *)
Definition candidates (items : list Pod) : list Pod :=
  filter (λ pod, strings_Contains (Name (PodMeta pod)) DatabaseMatch = true)
         items.

(** The [Update] requests against Deployment [name] in [namespace]. *)
Definition isUpdateOf (namespace name : string) (c : Call) : bool :=
  bool_decide (c = mkCall VUpdate Deployments namespace name).

Definition updatesOf (namespace name : string) (cs : list Call) : nat :=
  length (List.filter (isUpdateOf namespace name) cs).

(** The first owner reference that [getResourceType] maps to
    "Deployment". *)
Definition firstDeployment (ownerRefs : list OwnerReference)
  : option OwnerReference :=
  List.find (λ o, bool_decide (getResourceType (Kind o) = "Deployment"))
            ownerRefs.

(** The state once request [c] has been answered with cluster [w]. *)
Definition answered {W} (st : St W) (c : Call) (w : W) : St W :=
  {| world := w; calls := calls st ++ [c]; stdout := stdout st |}.

(** How often [key] occurs in the slice [restarted]. *)
Definition occurrences (key : string) (restarted : list string) : nat :=
  length (filter (λ entry, entry = key) restarted).

(** The resources that [restartResource] addresses for a resource type
    (lines 211-226, with the escalation of [restartReplicaSet]). *)
Definition resourcesOf (resourceType : string) : list Resource :=
  if decide (resourceType = "ReplicaSet") then [ReplicaSets; Deployments]
  else if decide (resourceType = "Deployment") then [Deployments]
  else if decide (resourceType = "StatefulSet") then [StatefulSets]
  else if decide (resourceType = "DaemonSet") then [DaemonSets]
  else [].

(** The resource behind an owner kind that is restarted in place. *)
Definition controllerResource (kind : string) : option Resource :=
  if decide (kind = "Deployment") then Some Deployments
  else if decide (kind = "StatefulSet") then Some StatefulSets
  else if decide (kind = "DaemonSet") then Some DaemonSets
  else None.

(** No byte of [s] is the separator of the keys. *)
Fixpoint barFree (s : string) : bool :=
  match s with
  | EmptyString => true
  | String c s' => negb (bool_decide (c = "|"%char)) && barFree s'
  end.

(** The annotations of a pod template, a [nil] map reading as empty. *)
Definition templateAnnotations (c : Controller) : gmap string string :=
  match Annotations (TemplateMeta c) with
  | None => ∅
  | Some m => m
  end.

(** What the resolver may append to [restarted] for [pod]: its bare
    name if it has no owner, else the key of one of its owner references
    that is not classified as "Pod". *)
Definition recordedFor (pod : Pod) (entry : string) : Prop :=
  (OwnerReferences (PodMeta pod) = [] ∧ entry = Name (PodMeta pod))
  ∨ (∃ o, o ∈ OwnerReferences (PodMeta pod) ∧ entry = matchKey o pod
          ∧ getResourceType (Kind o) ≠ "Pod").

(** How many pods of a list have no owner references and bear the
    name [key]. *)
Definition ownerlessNamed (key : string) (pods : list Pod) : nat :=
  length (filter (λ pod, OwnerReferences (PodMeta pod) = []
                         ∧ Name (PodMeta pod) = key) pods).

Section Cluster.
Context {W : Type} {api : Clientset W}.

(** The resolver on two pods, one after the other, as [main] runs it:
    the second call sees the slice the first one left. *)
Definition resolveBoth (fuel : nat) (restarted : list string)
    (first second : Pod) : M W (error * error * list string) :=
  let* out1 := restartResourceFromPod fuel restarted first in
  let* out2 := restartResourceFromPod fuel (snd out1) second in
  ret (fst out1, fst out2, snd out2).

(** The cluster answers a fetch of ReplicaSet [rsName] with an object
    whose first Deployment owner is [deployment]. *)
Definition replicaSetOf (namespace rsName deployment : string) : Prop :=
  ∀ w, ∃ rs ownerRef,
    fst (Apps_Get ReplicaSets namespace rsName w) = Ok rs
    ∧ firstDeployment (OwnerReferences (Meta rs)) = Some ownerRef
    ∧ OwnerName ownerRef = deployment.

(** The cluster answers a fetch of Deployment [deployment] with the
    object of that name, and accepts its updates. *)
Definition deploymentRestarts (namespace deployment : string) : Prop :=
  (∀ w, ∃ d, fst (Apps_Get Deployments namespace deployment w) = Ok d
             ∧ Name (Meta d) = deployment)
  ∧ (∀ w d, Name (Meta d) = deployment →
            fst (Apps_Update Deployments namespace d w) = None).

(** Over the cluster states that satisfy [Inv]: a fetch of pod [name]
    keeps [Inv], does not turn the clock back, and never shows the pod
    in phase [PodRunning]. *)
Definition neverRuns (Inv : W → Prop) (namespace name : string) : Prop :=
  ∀ w, Inv w →
    Inv (snd (Pods_Get namespace name w))
    ∧ time_Now w ≤ time_Now (snd (Pods_Get namespace name w))
    ∧ ∀ p, fst (Pods_Get namespace name w) = Ok p → Phase p ≠ PodRunning.

(** [time.Sleep d] keeps [Inv] and pauses for at least [d]. *)
Definition sleepAdvances (Inv : W → Prop) : Prop :=
  ∀ w d, Inv w →
    Inv (time_Sleep d w) ∧ time_Now w + d ≤ time_Now (time_Sleep d w).

(** The request with which [restartPod] creates the replacement of
    [pod] under [suffix]. *)
Definition createOf (pod : Pod) (suffix : string) : Call :=
  mkCall VCreate Pods (Namespace (PodMeta pod))
         (replacementName (Name (PodMeta pod)) suffix).

(** The cluster answers a fetch of controller [name] of resource [r]
    with the object of that name, and accepts its updates. *)
Definition controllerRestarts (r : Resource) (namespace name : string)
  : Prop :=
  (∀ w, ∃ obj, fst (Apps_Get r namespace name w) = Ok obj
               ∧ Name (Meta obj) = name)
  ∧ (∀ w obj, Name (Meta obj) = name →
              fst (Apps_Update r namespace obj w) = None).

(** No fetch of a pod turns the clock back. *)
Definition fetchKeepsClock : Prop :=
  ∀ w namespace name,
    time_Now w ≤ time_Now (snd (Pods_Get namespace name w)).

(** [time.Sleep d] pauses for at least [d]. *)
Definition sleepPauses : Prop :=
  ∀ w d, time_Now w + d ≤ time_Now (time_Sleep d w).

(** The state in which [restartPod] enters its loop for [pod], and the
    answer to its [Create]. *)
Definition created (pod : Pod) (st : St W) : result Pod * St W :=
  let drawn := rand_String (ConfigNameSuffixLength - 1) (world st) in
  let newPod :=
    newPodOf pod (replacementName (Name (PodMeta pod)) (fst drawn)) in
  let answer := Pods_Create (Namespace (PodMeta pod)) newPod (snd drawn) in
  (fst answer, answered st (createOf pod (fst drawn)) (snd answer)).

(** The requests of [restartPod] around its polls: the fetch of the
    replacement and the delete of the original. *)
Definition pollOf (instance : Pod) : Call :=
  mkCall VGet Pods (Namespace (PodMeta instance)) (Name (PodMeta instance)).

Definition deleteOf (pod : Pod) : Call :=
  mkCall VDelete Pods (Namespace (PodMeta pod)) (Name (PodMeta pod)).

(** Some state of the cluster shows [instance] in phase [Running]. *)
Definition seenRunning (instance : Pod) : Prop :=
  ∃ w p, fst (Pods_Get (Namespace (PodMeta instance))
                       (Name (PodMeta instance)) w) = Ok p
         ∧ Phase p = PodRunning.

(** Over the cluster states that satisfy [Inv]: a fetch of pod [name]
    keeps [Inv] and does not turn the clock back, and as long as the
    clock has not passed [deadline] it does not show the pod in phase
    [PodRunning].  What the pod does after [deadline] is left open. *)
Definition notRunningBefore (Inv : W → Prop) (namespace name : string)
    (deadline : Z) : Prop :=
  ∀ w, Inv w →
    Inv (snd (Pods_Get namespace name w))
    ∧ time_Now w ≤ time_Now (snd (Pods_Get namespace name w))
    ∧ (time_Now w ≤ deadline →
       ∀ p, fst (Pods_Get namespace name w) = Ok p → Phase p ≠ PodRunning).

(** The fetch of [instance] in state [st] shows it in phase [Running]. *)
Definition showsRunning (instance : Pod) (st : St W) : Prop :=
  ∃ p, fst (Pods_Get (Namespace (PodMeta instance))
                     (Name (PodMeta instance)) (world st)) = Ok p
       ∧ Phase p = PodRunning.

(** The state one round of the loop of [restartPod] leaves when its
    poll did not show the replacement running: the fetch of line 257,
    then the [time.Sleep] of line 261. *)
Definition missedPoll (instance : Pod) (st : St W) : St W :=
  {| world :=
       time_Sleep (ConfigRestartInterval * Second)
         (snd (Pods_Get (Namespace (PodMeta instance))
                        (Name (PodMeta instance)) (world st)));
     calls := calls st ++ [pollOf instance];
     stdout := stdout st |}.

(** The state after [n] such rounds. *)
Fixpoint afterPolls (instance : Pod) (n : nat) (st : St W) : St W :=
  match n with
  | O => st
  | S n' => afterPolls instance n' (missedPoll instance st)
  end.

End Cluster.

(** * Properties *)

(** ** Strings *)

Lemma length_append (a b : string) :
  String.length (a +:+ b) = (String.length a + String.length b)%nat.
Proof. induction a as [|c a IH]; simpl; [done | by rewrite IH]. Qed.

Lemma length_substring_0 (m : nat) (s : string) :
  (m ≤ String.length s)%nat → String.length (String.substring 0 m s) = m.
Proof.
  revert m. induction s as [|c s IH]; intros [|m] Hm; simpl in *; try done.
  - lia.
  - rewrite IH; [done | lia].
Qed.

Lemma substring_0_prefix (m : nat) (s : string) :
  (m ≤ String.length s)%nat →
  ∃ tail, s = String.substring 0 m s +:+ tail ∧ String.length tail = (String.length s - m)%nat.
Proof.
  revert m. induction s as [|c s IH]; intros [|m] Hm; simpl in *.
  - by exists EmptyString.
  - lia.
  - by exists (String c s).
  - destruct (IH m) as (tail & Heq & Hlen); [lia |].
    exists tail. split; [| done].
    change (String c s = String c (String.substring 0 m s +:+ tail)).
    by rewrite <- Heq.
Qed.

Lemma append_cancel_r (a b c : string) : a +:+ c = b +:+ c → a = b.
Proof.
  revert b. induction a as [|x a IH]; intros [|y b] Heq.
  - done.
  - apply (f_equal String.length) in Heq.
    rewrite !length_append in Heq. simpl in Heq. lia.
  - apply (f_equal String.length) in Heq.
    rewrite !length_append in Heq. simpl in Heq. lia.
  - change (String x (a +:+ c) = String y (b +:+ c)) in Heq.
    injection Heq as -> Heq. f_equal. by apply IH.
Qed.

Lemma length_newSuffixPodName (name suffix : string) :
  String.length (newSuffixPodName name suffix)
  = (String.length name + 1 + String.length suffix)%nat.
Proof. unfold newSuffixPodName. rewrite !length_append. simpl. lia. Qed.

Lemma strings_HasPrefix_spec (s prefix : string) :
  strings_HasPrefix s prefix = true ↔ ∃ post, s = prefix +:+ post.
Proof.
  revert s. induction prefix as [|p prefix IH]; intros s; simpl.
  - split; [intros _; by exists s | done].
  - destruct s as [|c s].
    + split; [done | intros [post Hpost]; discriminate Hpost].
    + destruct (decide (c = p)) as [->|Hne].
      * rewrite IH. split; intros [post Hpost]; exists post.
        -- by rewrite Hpost.
        -- by injection Hpost.
      * split; [done | intros [post Hpost]; injection Hpost; congruence].
Qed.

Lemma strings_Contains_spec (s substr : string) :
  strings_Contains s substr = true ↔ ∃ pre post, s = pre +:+ substr +:+ post.
Proof.
  induction s as [|c s IH]; simpl.
  - rewrite orb_false_r, strings_HasPrefix_spec. split.
    + intros [post Hpost]. by exists EmptyString, post.
    + intros (pre & post & Heq). destruct pre; simpl in Heq; [|done].
      by exists post.
  - rewrite orb_true_iff, strings_HasPrefix_spec, IH. split.
    + intros [[post Hpost] | (pre & post & Heq)].
      * by exists EmptyString, post.
      * exists (String c pre), post. simpl. by rewrite Heq.
    + intros (pre & post & Heq). destruct pre as [|c' pre]; simpl in Heq.
      * left. by exists post.
      * right. exists pre, post. by injection Heq.
Qed.

(** ** The owner kinds *)

Lemma getResourceType_unsupported (kind : string) :
  kind ≠ "ReplicaSet" → kind ≠ "Deployment" → kind ≠ "StatefulSet" →
  kind ≠ "DaemonSet" → kind ≠ "" →
  getResourceType kind = "unsupported".
Proof. intros. unfold getResourceType. by repeat case_decide. Qed.

Lemma getResourceType_cases (kind : string) :
  getResourceType kind ∈
    ["ReplicaSet"; "Deployment"; "StatefulSet"; "DaemonSet"; "Pod";
     "unsupported"].
Proof. unfold getResourceType. repeat case_decide; set_solver. Qed.

Lemma getResourceType_not_unknown (kind : string) :
  getResourceType kind ≠ "unknown".
Proof. unfold getResourceType. by repeat case_decide. Qed.

Section Properties.
Context {W : Type} {api : Clientset W}.

(** C2, the code as it runs: a pod owned by a [Job] is classified as
    "unsupported", yet the guard of line 174 compares with "unknown",
    so the owner is not skipped: [restartResource] is called for it,
    issues no request and returns [nil], and the key of the Job is
    appended to [restarted]. *)
Theorem unsupported_owner_is_recorded (fuel : nat) (st : St W) :
  getResourceType "Job" = "unsupported"
  ∧ restartResourceFromPod fuel [] Stub.podJob st
    = Some ((None, ["database-backup-28391|Job|default"]), st).
Proof. split; reflexivity. Qed.

(** ** Controllers *)

Lemma restartController_calls (r : Resource) (name namespace : string)
    (st : St W) :
  ∃ err st' new,
    restartController r name namespace st = Some (err, st')
    ∧ calls st' = calls st ++ new
    ∧ Forall (λ c, callResource c = r) new.
Proof.
  unfold restartController, bind, getController, updateController, request,
    timeNow.
  destruct (Apps_Get r namespace name (world st)) as [[obj|e] w1]; simpl.
  - destruct (Apps_Update _ _ _ _) as [err w2].
    eexists _, _, [_; _]. split; [done |]. simpl.
    split; [by rewrite <- app_assoc | by repeat constructor].
  - eexists _, _, [_]. split; [done |]. by repeat constructor.
Qed.

Lemma restartReplicaSet_owners_find (ownerRefs : list OwnerReference)
    (namespace : string) (st : St W) :
  restartReplicaSet_owners ownerRefs namespace st
  = match firstDeployment ownerRefs with
    | Some ownerRef => restartDeployment (OwnerName ownerRef) namespace st
    | None => Some (None, st)
    end.
Proof.
  induction ownerRefs as [|o rest IH]; simpl; [done |].
  case_decide as Hk.
  - by rewrite bool_decide_eq_true_2.
  - by rewrite bool_decide_eq_false_2.
Qed.

(** C8: [restartReplicaSet] first fetches the ReplicaSet; it then hands
    the restart to [restartDeployment] for the first owner reference
    classified as "Deployment", and without such an owner returns [nil]
    having issued the fetch only.  Whatever the cluster answers, it
    returns, and the only request it ever issues against the ReplicaSet
    resource is that [Get]. *)
Theorem restartReplicaSet_escalates (name namespace : string) (st : St W) :
  let fetch := mkCall VGet ReplicaSets namespace name in
  let got := Apps_Get ReplicaSets namespace name (world st) in
  let st1 := answered st fetch (snd got) in
  restartReplicaSet name namespace st
  = match fst got with
    | Err e => Some (Some e, st1)
    | Ok rs =>
        match firstDeployment (OwnerReferences (Meta rs)) with
        | Some ownerRef =>
            restartDeployment (OwnerName ownerRef) namespace st1
        | None => Some (None, st1)
        end
    end
  ∧ ∃ err st' new,
      restartReplicaSet name namespace st = Some (err, st')
      ∧ calls st' = calls st ++ fetch :: new
      ∧ Forall (λ c, callResource c ≠ ReplicaSets) new.
Proof.
  intros fetch got st1.
  assert (Heq : restartReplicaSet name namespace st
    = match fst got with
      | Err e => Some (Some e, st1)
      | Ok rs =>
          match firstDeployment (OwnerReferences (Meta rs)) with
          | Some ownerRef =>
              restartDeployment (OwnerName ownerRef) namespace st1
          | None => Some (None, st1)
          end
      end).
  { unfold restartReplicaSet, bind, getController, request.
    subst st1 got fetch. unfold answered.
    destruct (Apps_Get ReplicaSets namespace name (world st))
      as [[rs|e] w1]; simpl; [|done].
    apply restartReplicaSet_owners_find. }
  split; [exact Heq |]. rewrite Heq.
  destruct (fst got) as [rs|e].
  - destruct (firstDeployment _) as [o|].
    + destruct (restartController_calls Deployments (OwnerName o)
                  namespace st1) as (err & st' & new & Hrun & Hcalls & Hres).
      exists err, st', new. split; [exact Hrun |]. split.
      * rewrite Hcalls. simpl. by rewrite <- app_assoc.
      * eapply Forall_impl; [exact Hres |]. by intros c ->.
    + exists None, st1, []. by rewrite Forall_nil.
  - exists (Some e), st1, []. by rewrite Forall_nil.
Qed.

(** ** The loop over the owner references *)

Lemma slices_Contains_true (restarted : list string) (key : string) :
  slices_Contains restarted key = true ↔ key ∈ restarted.
Proof. unfold slices_Contains. apply bool_decide_eq_true. Qed.

Lemma slices_Contains_false (restarted : list string) (key : string) :
  slices_Contains restarted key = false ↔ key ∉ restarted.
Proof. unfold slices_Contains. apply bool_decide_eq_false. Qed.

Lemma owners_step_pod (fuel : nat) (pod : Pod) (ownerRef : OwnerReference)
    (rest : list OwnerReference) (restarted : list string) (st : St W) :
  getResourceType (Kind ownerRef) = "Pod" →
  restartResourceFromPod_owners fuel pod (ownerRef :: rest) restarted st
  = restartResourceFromPod_owners fuel pod rest restarted st.
Proof.
  intros Hpod. simpl. rewrite Hpod.
  rewrite (decide_False (P := "Pod" = "unknown")) by done.
  by rewrite (decide_False (P := "Pod" ≠ "Pod")) by auto.
Qed.

Lemma owners_step_seen (fuel : nat) (pod : Pod) (ownerRef : OwnerReference)
    (rest : list OwnerReference) (restarted : list string) (st : St W) :
  getResourceType (Kind ownerRef) ≠ "Pod" →
  matchKey ownerRef pod ∈ restarted →
  restartResourceFromPod_owners fuel pod (ownerRef :: rest) restarted st
  = restartResourceFromPod_owners fuel pod rest restarted
      {| world := world st; calls := calls st;
         stdout := stdout st ++ ["skipping already restarted resource: "
                     +:+ matchKey ownerRef pod +:+ LF] |}.
Proof.
  intros Hpod Hin. simpl.
  rewrite decide_False by apply getResourceType_not_unknown.
  rewrite decide_True by done.
  by rewrite (proj2 (slices_Contains_true _ _) Hin).
Qed.

Lemma owners_step_fresh (fuel : nat) (pod : Pod) (ownerRef : OwnerReference)
    (rest : list OwnerReference) (restarted : list string) (st : St W) :
  getResourceType (Kind ownerRef) ≠ "Pod" →
  matchKey ownerRef pod ∉ restarted →
  restartResourceFromPod_owners fuel pod (ownerRef :: rest) restarted st
  = match restartResource fuel (getResourceType (Kind ownerRef))
            (OwnerName ownerRef) pod st with
    | Some (Some e, st') => Some ((Some e, restarted), st')
    | Some (None, st') =>
        restartResourceFromPod_owners fuel pod rest
          (restarted ++ [matchKey ownerRef pod]) st'
    | None => None
    end.
Proof.
  intros Hpod Hin. simpl.
  rewrite decide_False by apply getResourceType_not_unknown.
  rewrite decide_True by done.
  rewrite (proj2 (slices_Contains_false _ _) Hin).
  unfold bind.
  by destruct (restartResource _ _ _ _ _) as [[[e|] st']|].
Qed.

Lemma restartResourceFromPod_owned (fuel : nat) (restarted : list string)
    (pod : Pod) (st : St W) :
  OwnerReferences (PodMeta pod) ≠ [] →
  restartResourceFromPod fuel restarted pod st
  = restartResourceFromPod_owners fuel pod (OwnerReferences (PodMeta pod))
      restarted st.
Proof.
  intros Hne. unfold restartResourceFromPod.
  rewrite decide_False; [done |].
  by destruct (OwnerReferences (PodMeta pod)).
Qed.

(** C3: for an owner reference the loop of [restartResourceFromPod]
    acts on (one not classified as "Pod"), [restarted] is consulted
    before anything is done: a key that is present means no restart and
    no request.  A key that is absent means [restartResource] runs from
    that very state; its failure ends the function with [restarted] as
    it was, so the key is still absent, and only its success appends
    the key.  A later pod of the same namespace that meets the same
    owner with the key still absent therefore runs [restartResource]
    for it again. *)
Theorem ledger_check_call_insert (fuel : nat) (pod : Pod)
    (ownerRef : OwnerReference) (rest : list OwnerReference)
    (restarted : list string) (st : St W) :
  let resourceType := getResourceType (Kind ownerRef) in
  let key := matchKey ownerRef pod in
  let attempt := restartResource fuel resourceType (OwnerName ownerRef) in
  resourceType ≠ "Pod" →
  (key ∈ restarted →
   ∃ st', restartResourceFromPod_owners fuel pod (ownerRef :: rest)
            restarted st
          = restartResourceFromPod_owners fuel pod rest restarted st'
          ∧ world st' = world st ∧ calls st' = calls st)
  ∧ (key ∉ restarted →
     (∀ e st', attempt pod st = Some (Some e, st') →
        restartResourceFromPod_owners fuel pod (ownerRef :: rest)
          restarted st = Some ((Some e, restarted), st'))
     ∧ (∀ st', attempt pod st = Some (None, st') →
          restartResourceFromPod_owners fuel pod (ownerRef :: rest)
            restarted st
          = restartResourceFromPod_owners fuel pod rest
              (restarted ++ [key]) st')
     ∧ (∀ later rest2 restarted2 st2,
          Namespace (PodMeta later) = Namespace (PodMeta pod) →
          OwnerReferences (PodMeta later) = ownerRef :: rest2 →
          key ∉ restarted2 →
          restartResourceFromPod fuel restarted2 later st2
          = match attempt later st2 with
            | Some (Some e, st') => Some ((Some e, restarted2), st')
            | Some (None, st') =>
                restartResourceFromPod_owners fuel later rest2
                  (restarted2 ++ [key]) st'
            | None => None
            end)).
Proof.
  intros resourceType key attempt Hpod. split.
  - intros Hin. eexists. split.
    + by apply owners_step_seen.
    + done.
  - intros Hout. split; [| split].
    + intros e st' Hrun.
      rewrite owners_step_fresh by done.
      fold resourceType attempt. by rewrite Hrun.
    + intros st' Hrun.
      rewrite owners_step_fresh by done.
      fold resourceType attempt. by rewrite Hrun.
    + intros later rest2 restarted2 st2 Hns Hown Hout2.
      assert (Hkey : matchKey ownerRef later = key).
      { subst key. unfold matchKey. by rewrite Hns. }
      rewrite restartResourceFromPod_owned by (by rewrite Hown).
      rewrite Hown, owners_step_fresh; [| done | by rewrite Hkey].
      by rewrite Hkey.
Qed.

(** ** Pods behind a ReplicaSet *)

Lemma restartReplicaSet_unfold (name namespace : string) (st : St W) :
  restartReplicaSet name namespace st
  = let got := Apps_Get ReplicaSets namespace name (world st) in
    let st1 := answered st (mkCall VGet ReplicaSets namespace name)
                 (snd got) in
    match fst got with
    | Err e => Some (Some e, st1)
    | Ok rs =>
        match firstDeployment (OwnerReferences (Meta rs)) with
        | Some ownerRef =>
            restartDeployment (OwnerName ownerRef) namespace st1
        | None => Some (None, st1)
        end
    end.
Proof.
  unfold restartReplicaSet, bind, getController, request, answered.
  destruct (Apps_Get ReplicaSets namespace name (world st))
    as [[rs|e] w1]; simpl; [|done].
  apply restartReplicaSet_owners_find.
Qed.

Lemma matchKey_ReplicaSet (rsName : string) (pod : Pod) :
  matchKey (mkOwnerReference "ReplicaSet" rsName) pod
  = rsName +:+ "|ReplicaSet|" +:+ Namespace (PodMeta pod).
Proof. reflexivity. Qed.

(** C10: a pod whose owner is a ReplicaSet that has no Deployment
    among its owners.  With the key not yet in [restarted], the
    resolver returns [nil] and appends [rsName|ReplicaSet|namespace],
    and the fetch of the ReplicaSet is the only request it has issued:
    nothing was restarted, yet the ReplicaSet is in the slice that
    [main] reports. *)
Theorem orphan_replicaset_is_recorded (fuel : nat)
    (restarted : list string) (pod : Pod) (rsName : string)
    (rs : Controller) (w1 : W) (st : St W) :
  let namespace := Namespace (PodMeta pod) in
  let key := rsName +:+ "|ReplicaSet|" +:+ namespace in
  OwnerReferences (PodMeta pod) = [mkOwnerReference "ReplicaSet" rsName] →
  Apps_Get ReplicaSets namespace rsName (world st) = (Ok rs, w1) →
  firstDeployment (OwnerReferences (Meta rs)) = None →
  key ∉ restarted →
  restartResourceFromPod fuel restarted pod st
  = Some ((None, restarted ++ [key]),
          answered st (mkCall VGet ReplicaSets namespace rsName) w1)
  ∧ Forall (λ c, isMutating c = false)
           [mkCall VGet ReplicaSets namespace rsName].
Proof.
  intros namespace key Hown Hget Hnone Hfresh.
  split; [| by repeat constructor].
  rewrite restartResourceFromPod_owned by (by rewrite Hown).
  rewrite Hown, owners_step_fresh; [| done | by rewrite matchKey_ReplicaSet].
  change (restartResource fuel _ _ pod st)
    with (restartReplicaSet rsName namespace st).
  rewrite restartReplicaSet_unfold, Hget. simpl. by rewrite Hnone.
Qed.

(** ** Two pods of one Deployment *)

Lemma updatesOf_app (namespace name : string) (cs1 cs2 : list Call) :
  updatesOf namespace name (cs1 ++ cs2)
  = (updatesOf namespace name cs1 + updatesOf namespace name cs2)%nat.
Proof. unfold updatesOf. by rewrite List.filter_app, length_app. Qed.

Lemma updatesOf_restart (namespace rsName deployment : string) :
  updatesOf namespace deployment
    [mkCall VGet ReplicaSets namespace rsName;
     mkCall VGet Deployments namespace deployment;
     mkCall VUpdate Deployments namespace deployment] = 1%nat.
Proof.
  unfold updatesOf, isUpdateOf. simpl.
  rewrite bool_decide_eq_true_2; done.
Qed.

Lemma restartDeployment_ok (namespace deployment : string) (st : St W) :
  deploymentRestarts namespace deployment →
  ∃ st', restartDeployment deployment namespace st = Some (None, st')
         ∧ calls st' = calls st
             ++ [mkCall VGet Deployments namespace deployment;
                 mkCall VUpdate Deployments namespace deployment].
Proof.
  intros [Hget Hupd].
  unfold restartDeployment, restartController, bind, getController,
    updateController, request, timeNow.
  destruct (Hget (world st)) as (d & Hd & Hname).
  destruct (Apps_Get Deployments namespace deployment (world st))
    as [got w1]. simpl in Hd. subst got. simpl.
  specialize (Hupd w1
    (setRestartedAt d (time_Format_RFC3339 (time_Now w1))) Hname).
  destruct (Apps_Update _ _ _ _) as [err w2]. simpl in Hupd. subst err.
  eexists. split; [done |]. simpl. by rewrite Hname, <- app_assoc.
Qed.

Lemma restart_via_replicaset (fuel : nat) (restarted : list string)
    (pod : Pod) (rsName deployment : string) (st : St W) :
  let namespace := Namespace (PodMeta pod) in
  OwnerReferences (PodMeta pod) = [mkOwnerReference "ReplicaSet" rsName] →
  replicaSetOf namespace rsName deployment →
  deploymentRestarts namespace deployment →
  rsName +:+ "|ReplicaSet|" +:+ namespace ∉ restarted →
  ∃ st',
    restartResourceFromPod fuel restarted pod st
    = Some ((None, restarted ++ [rsName +:+ "|ReplicaSet|" +:+ namespace]),
            st')
    ∧ calls st' = calls st
        ++ [mkCall VGet ReplicaSets namespace rsName;
            mkCall VGet Deployments namespace deployment;
            mkCall VUpdate Deployments namespace deployment].
Proof.
  intros namespace Hown Hrs Hdep Hfresh.
  rewrite restartResourceFromPod_owned by (by rewrite Hown).
  rewrite Hown, owners_step_fresh; [| done | by rewrite matchKey_ReplicaSet].
  change (restartResource fuel _ _ pod st)
    with (restartReplicaSet rsName namespace st).
  rewrite restartReplicaSet_unfold.
  destruct (Hrs (world st)) as (rs & o & Hget & Hfirst & Hname).
  cbv zeta. rewrite Hget, Hfirst, Hname.
  destruct (restartDeployment_ok namespace deployment
              (answered st (mkCall VGet ReplicaSets namespace rsName)
                 (snd (Apps_Get ReplicaSets namespace rsName (world st))))
              Hdep) as (st' & Hrun & Hcalls).
  rewrite Hrun. exists st'. split; [done |].
  rewrite Hcalls. simpl. by rewrite <- app_assoc.
Qed.

Lemma skip_via_replicaset (fuel : nat) (restarted : list string)
    (pod : Pod) (rsName : string) (st : St W) :
  OwnerReferences (PodMeta pod) = [mkOwnerReference "ReplicaSet" rsName] →
  rsName +:+ "|ReplicaSet|" +:+ Namespace (PodMeta pod) ∈ restarted →
  ∃ st',
    restartResourceFromPod fuel restarted pod st
    = Some ((None, restarted), st')
    ∧ calls st' = calls st.
Proof.
  intros Hown Hseen.
  rewrite restartResourceFromPod_owned by (by rewrite Hown).
  rewrite Hown, owners_step_seen; [| done | by rewrite matchKey_ReplicaSet].
  by eexists.
Qed.

Lemma resolveBoth_replicasets (fuel : nat) (restarted : list string)
    (first second : Pod) (namespace rs1 rs2 deployment : string)
    (st : St W) :
  Namespace (PodMeta first) = namespace →
  Namespace (PodMeta second) = namespace →
  OwnerReferences (PodMeta first) = [mkOwnerReference "ReplicaSet" rs1] →
  OwnerReferences (PodMeta second) = [mkOwnerReference "ReplicaSet" rs2] →
  replicaSetOf namespace rs1 deployment →
  replicaSetOf namespace rs2 deployment →
  deploymentRestarts namespace deployment →
  rs1 +:+ "|ReplicaSet|" +:+ namespace ∉ restarted →
  rs2 +:+ "|ReplicaSet|" +:+ namespace ∉ restarted →
  ∃ restarted' st' new,
    resolveBoth fuel restarted first second st
    = Some ((None, None, restarted'), st')
    ∧ calls st' = calls st ++ new
    ∧ updatesOf namespace deployment new
      = if decide (rs1 = rs2) then 1%nat else 2%nat.
Proof.
  intros Hns1 Hns2 Hown1 Hown2 Hrs1 Hrs2 Hdep Hfresh1 Hfresh2.
  subst namespace.
  destruct (restart_via_replicaset fuel restarted first rs1 deployment st
              Hown1 Hrs1 Hdep Hfresh1) as (st1 & Hrun1 & Hcalls1).
  unfold resolveBoth, bind. rewrite Hrun1. simpl.
  destruct (decide (rs1 = rs2)) as [<-|Hne].
  - destruct (skip_via_replicaset fuel
                (restarted
                   ++ [rs1 +:+ "|ReplicaSet|" +:+ Namespace (PodMeta first)])
                second rs1 st1 Hown2) as (st2 & Hrun2 & Hcalls2).
    { rewrite Hns2. set_solver. }
    rewrite Hrun2. eexists _, _, _. split; [done |].
    split; [by rewrite Hcalls2, Hcalls1 |]. apply updatesOf_restart.
  - rewrite <- Hns2 in Hrs2, Hdep.
    destruct (restart_via_replicaset fuel
                (restarted
                   ++ [rs1 +:+ "|ReplicaSet|" +:+ Namespace (PodMeta first)])
                second rs2 deployment st1 Hown2 Hrs2 Hdep)
      as (st2 & Hrun2 & Hcalls2).
    { rewrite Hns2. intros [Hin | Heq%list_elem_of_singleton]%elem_of_app.
      - done.
      - by apply append_cancel_r in Heq. }
    rewrite Hrun2. eexists _, _, _. split; [done |].
    split; [by rewrite Hcalls2, Hcalls1, <- app_assoc |].
    rewrite updatesOf_app, Hns2, !updatesOf_restart. done.
Qed.

(** How often a Deployment behind ReplicaSets is updated: in a cluster
    that answers the requests involved, two pods behind ReplicaSets of
    the same Deployment lead, in either order, to one [Update] of the
    Deployment when the ReplicaSet is the same, and to two when the
    ReplicaSets differ, the key that deduplicates being the one of the
    ReplicaSet. *)
Theorem deployment_updates_per_replicaset (fuel : nat)
    (restarted : list string) (podA podB : Pod)
    (namespace rsA rsB deployment : string) (st : St W) :
  Namespace (PodMeta podA) = namespace →
  Namespace (PodMeta podB) = namespace →
  OwnerReferences (PodMeta podA) = [mkOwnerReference "ReplicaSet" rsA] →
  OwnerReferences (PodMeta podB) = [mkOwnerReference "ReplicaSet" rsB] →
  replicaSetOf namespace rsA deployment →
  replicaSetOf namespace rsB deployment →
  deploymentRestarts namespace deployment →
  rsA +:+ "|ReplicaSet|" +:+ namespace ∉ restarted →
  rsB +:+ "|ReplicaSet|" +:+ namespace ∉ restarted →
  let expected := if decide (rsA = rsB) then 1%nat else 2%nat in
  (∃ restarted' st' new,
     resolveBoth fuel restarted podA podB st
     = Some ((None, None, restarted'), st')
     ∧ calls st' = calls st ++ new
     ∧ updatesOf namespace deployment new = expected)
  ∧ (∃ restarted' st' new,
       resolveBoth fuel restarted podB podA st
       = Some ((None, None, restarted'), st')
       ∧ calls st' = calls st ++ new
       ∧ updatesOf namespace deployment new = expected).
Proof.
  intros HnsA HnsB HownA HownB HrsA HrsB Hdep HfreshA HfreshB expected.
  split.
  - by apply (resolveBoth_replicasets fuel restarted podA podB
                namespace rsA rsB deployment st).
  - destruct (resolveBoth_replicasets fuel restarted podB podA
                namespace rsB rsA deployment st)
      as (r' & st' & new & Hrun & Hcalls & Hcount); try done.
    exists r', st', new. split; [done |]. split; [done |].
    rewrite Hcount. subst expected. by repeat case_decide.
Qed.

(** ** The pods [main] selects *)

Lemma candidates_cons (pod : Pod) (rest : list Pod) :
  candidates (pod :: rest)
  = if strings_Contains (Name (PodMeta pod)) DatabaseMatch
    then pod :: candidates rest
    else candidates rest.
Proof.
  unfold candidates. rewrite filter_cons.
  destruct (strings_Contains _ _); by case_decide.
Qed.

(** C9: the pods that [main] hands to [restartResourceFromPod] are
    those of the list whose name contains [DatabaseMatch] as a literal
    byte substring, in the order of the list: a pod is among them
    exactly when it is listed and its name splits around "database",
    they form a subsequence of the list, and the loop of [main] does
    what [main_restart] does on each of them in turn. *)
Theorem main_selects_by_substring (items : list Pod) :
  (∀ pod, pod ∈ candidates items
          ↔ pod ∈ items
            ∧ ∃ pre post,
                Name (PodMeta pod) = pre +:+ DatabaseMatch +:+ post)
  ∧ candidates items `sublist_of` items
  ∧ ∀ fuel allErrs restarted (st : St W),
      main_pods fuel items allErrs restarted st
      = restartEach fuel (candidates items) allErrs restarted st.
Proof.
  split; [| split].
  - intros pod. unfold candidates.
    rewrite list_elem_of_filter, strings_Contains_spec. tauto.
  - apply sublist_filter.
  - intros fuel. induction items as [|pod rest IH]; intros allErrs restarted st.
    + done.
    + rewrite candidates_cons. simpl.
      destruct (strings_Contains _ _); simpl.
      * unfold bind. destruct (main_restart _ _ _ _ _) as [[acc st1]|];
          [apply IH | done].
      * apply IH.
Qed.

(** ** Entries of [restarted] *)

Lemma occurrences_app (key : string) (l1 l2 : list string) :
  occurrences key (l1 ++ l2)
  = (occurrences key l1 + occurrences key l2)%nat.
Proof. unfold occurrences. by rewrite filter_app, length_app. Qed.

Lemma occurrences_absent (key : string) (l : list string) :
  key ∉ l → occurrences key l = 0%nat.
Proof.
  unfold occurrences. induction l as [|x l IH]; intros Hout; [done |].
  apply not_elem_of_cons in Hout as [Hne Hout].
  rewrite filter_cons_False by done. by apply IH.
Qed.

Lemma occurrences_snoc (key entry : string) (l : list string) :
  occurrences key (l ++ [entry])
  = (occurrences key l + if decide (entry = key) then 1 else 0)%nat.
Proof.
  rewrite occurrences_app. f_equal. unfold occurrences.
  rewrite filter_cons. by case_decide.
Qed.

(** ** Replacing an ownerless pod *)

Lemma isPodRunning_calls (name namespace : string) (st : St W) :
  ∃ b, isPodRunning name namespace st
       = Some (b, answered st (mkCall VGet Pods namespace name)
                    (snd (Pods_Get namespace name (world st))))
       ∧ (b = true →
          ∃ p, fst (Pods_Get namespace name (world st)) = Ok p
               ∧ Phase p = PodRunning).
Proof.
  unfold isPodRunning, bind, request, answered.
  destruct (Pods_Get namespace name (world st)) as [[p|e] w1]; simpl.
  - repeat case_decide; eexists; (split; [done |]); intros; try done.
    by exists p.
  - eexists. split; [done |]. done.
Qed.

Lemma restartPod_wait_calls (pod instance : Pod) (start : Z) (fuel : nat) :
  ∀ (st : St W) err st',
    restartPod_wait fuel start pod instance st = Some (err, st') →
    ∃ later, calls st' = calls st ++ later.
Proof.
  induction fuel as [|fuel IH]; intros st err st' Hrun; [done |].
  simpl in Hrun. unfold bind, timeNow in Hrun.
  case_decide.
  - injection Hrun as _ <-. exists []. simpl. by rewrite app_nil_r.
  - destruct (isPodRunning_calls (Name (PodMeta instance))
                (Namespace (PodMeta instance)) st) as (b & Hb & _).
    rewrite Hb in Hrun. destruct b; simpl in Hrun.
    + unfold deletePod, request in Hrun.
      destruct (Pods_Delete _ _ _) as [e w2].
      injection Hrun as _ <-. simpl. rewrite <- app_assoc. by eexists.
    + apply IH in Hrun as [later Hlater]. simpl in Hlater.
      rewrite <- app_assoc in Hlater. by eexists.
Qed.

Lemma restartPod_created (fuel : nat) (pod : Pod) (st : St W) err st' :
  restartPod fuel pod st = Some (err, st') →
  ∃ later,
    calls st' = calls st
      ++ createOf pod
           (fst (rand_String (ConfigNameSuffixLength - 1) (world st)))
      :: later.
Proof.
  unfold restartPod, bind, randString, request, timeNow, createOf.
  destruct (rand_String _ (world st)) as [suffix w1]. simpl.
  destruct (Pods_Create _ _ _) as [[instance|e] w2]; simpl.
  - intros [later Hlater]%restartPod_wait_calls. simpl in Hlater.
    rewrite <- app_assoc in Hlater. by eexists.
  - intros [= _ <-]. by exists [].
Qed.

(** C7: [restartPod] asks [rand.String] for a token of
    [ConfigNameSuffixLength - 1 = 4] bytes and issues its [Create]
    under [replacementName].  For a name of at most
    [ValidNameMaxLength] bytes that is the name, a hyphen and the
    token; for a longer name it is the name without its last five
    bytes, a hyphen and the token, which is as long as the name. *)
Theorem replacement_name_shape (fuel : nat) (pod : Pod) (st : St W)
    (err : error) (st' : St W) :
  let original := Name (PodMeta pod) in
  let suffix :=
    fst (rand_String (ConfigNameSuffixLength - 1) (world st)) in
  let replacement := replacementName original suffix in
  String.length suffix = 4%nat →
  restartPod fuel pod st = Some (err, st') →
  (∃ later, calls st' = calls st ++ createOf pod suffix :: later)
  ∧ ((String.length original ≤ ValidNameMaxLength)%nat →
     replacement = original +:+ "-" +:+ suffix)
  ∧ ((ValidNameMaxLength < String.length original)%nat →
     ∃ kept cut,
       original = kept +:+ cut ∧ String.length cut = 5%nat
       ∧ replacement = kept +:+ "-" +:+ suffix
       ∧ (String.length replacement ≤ String.length original)%nat).
Proof.
  intros original suffix replacement Hsuffix Hrun.
  split; [by eapply restartPod_created |].
  subst replacement. unfold replacementName, newSuffixPodName. split.
  - intros Hshort. by rewrite decide_False by lia.
  - intros Hlong. rewrite decide_True by done.
    unfold ValidNameMaxLength, ConfigNameSuffixLength in *.
    destruct (substring_0_prefix (String.length original - 5) original)
      as (cut & Hsplit & Hcut); [lia |].
    exists (String.substring 0 (String.length original - 5) original), cut.
    split; [done |]. split; [lia |]. split; [done |].
    rewrite !length_append, length_substring_0, Hsuffix by lia.
    simpl. lia.
Qed.

Lemma restartPod_wait_times_out (Inv : W → Prop) (pod instance : Pod)
    (start : Z) (fuel : nat) :
  neverRuns Inv (Namespace (PodMeta instance)) (Name (PodMeta instance)) →
  sleepAdvances Inv →
  ∀ st : St W,
    Inv (world st) →
    (1 ≤ fuel)%nat →
    WaitForRestartTimeout - (time_Now (world st) - start)
      < ConfigRestartInterval * Second * (Z.of_nat fuel - 1) →
    ∃ st' polls,
      restartPod_wait fuel start pod instance st = Some (None, st')
      ∧ calls st' = calls st ++ polls
      ∧ Forall (λ c, c = mkCall VGet Pods (Namespace (PodMeta instance))
                           (Name (PodMeta instance))) polls.
Proof.
  intros Hnever Hsleep.
  induction fuel as [|fuel IH]; intros st Hinv Hfuel Hleft; [lia |].
  simpl. unfold bind, timeNow.
  case_decide as Hout.
  - eexists _, []. simpl. rewrite app_nil_r. by split.
  - destruct (isPodRunning_calls (Name (PodMeta instance))
                (Namespace (PodMeta instance)) st) as (b & -> & Hb).
    destruct (Hnever (world st) Hinv) as (Hinv1 & Hmono & Hphase).
    destruct b.
    { destruct Hb as (p & Hp & Hrun); [done |]. by apply Hphase in Hp. }
    simpl.
    destruct (Hsleep (snd (Pods_Get (Namespace (PodMeta instance))
                             (Name (PodMeta instance)) (world st)))
                (ConfigRestartInterval * Second) Hinv1) as [Hinv2 Hadv].
    unfold ConfigRestartInterval, WaitForRestartTimeout, Second in *.
    edestruct IH as (st' & polls & Hrun & Hcalls & Hpolls);
      [| | | rewrite Hrun].
    + exact Hinv2.
    + lia.
    + simpl. lia.
    + eexists _, (_ :: polls). split; [done |]. split.
      * rewrite Hcalls. simpl. by rewrite <- app_assoc.
      * by constructor.
Qed.

Lemma restartPod_wait_deadline (Inv : W → Prop) (pod instance : Pod)
    (start : Z) (fuel : nat) :
  notRunningBefore Inv (Namespace (PodMeta instance))
    (Name (PodMeta instance)) (start + WaitForRestartTimeout) →
  sleepAdvances Inv →
  ∀ st : St W,
    Inv (world st) →
    (1 ≤ fuel)%nat →
    WaitForRestartTimeout - (time_Now (world st) - start)
      < ConfigRestartInterval * Second * (Z.of_nat fuel - 1) →
    ∃ st' polls,
      restartPod_wait fuel start pod instance st = Some (None, st')
      ∧ calls st' = calls st ++ polls
      ∧ Forall (λ c, c = mkCall VGet Pods (Namespace (PodMeta instance))
                           (Name (PodMeta instance))) polls.
Proof.
  intros Hnever Hsleep.
  induction fuel as [|fuel IH]; intros st Hinv Hfuel Hleft; [lia |].
  simpl. unfold bind, timeNow.
  case_decide as Hout.
  - eexists _, []. simpl. rewrite app_nil_r. by split.
  - destruct (isPodRunning_calls (Name (PodMeta instance))
                (Namespace (PodMeta instance)) st) as (b & -> & Hb).
    destruct (Hnever (world st) Hinv) as (Hinv1 & Hmono & Hphase).
    destruct b.
    { destruct Hb as (p & Hp & Hrun); [done |].
      exfalso. eapply Hphase; [lia | exact Hp | exact Hrun]. }
    simpl.
    destruct (Hsleep (snd (Pods_Get (Namespace (PodMeta instance))
                             (Name (PodMeta instance)) (world st)))
                (ConfigRestartInterval * Second) Hinv1) as [Hinv2 Hadv].
    unfold ConfigRestartInterval, WaitForRestartTimeout, Second in *.
    edestruct IH as (st' & polls & Hrun & Hcalls & Hpolls);
      [| | | rewrite Hrun].
    + exact Hinv2.
    + lia.
    + simpl. lia.
    + eexists _, (_ :: polls). split; [done |]. split.
      * rewrite Hcalls. simpl. by rewrite <- app_assoc.
      * by constructor.
Qed.

(** C6: the replacement has been created, and no fetch shows it running
    while the clock is within [WaitForRestartTimeout] of the start of
    the wait; what it does later is left open, and the clock moves on
    with every [time.Sleep].  Then [restartPod] returns, with [nil], as
    soon as it is given fuel for 152 rounds of its loop (151 polls, two
    seconds apart, and the round that sees the 300 seconds exceeded);
    after the [Create] it has only fetched the replacement, so no
    [Delete] went out and the original pod is still there next to its
    replacement. *)
Theorem restartPod_timeout_keeps_original (Inv : W → Prop) (fuel : nat)
    (pod instance : Pod) (suffix : string) (w1 w2 : W) (st : St W) :
  let newPod :=
    newPodOf pod (replacementName (Name (PodMeta pod)) suffix) in
  let poll := mkCall VGet Pods (Namespace (PodMeta instance))
                     (Name (PodMeta instance)) in
  rand_String (ConfigNameSuffixLength - 1) (world st) = (suffix, w1) →
  Pods_Create (Namespace (PodMeta pod)) newPod w1 = (Ok instance, w2) →
  Inv w2 →
  notRunningBefore Inv (Namespace (PodMeta instance))
    (Name (PodMeta instance)) (time_Now w2 + WaitForRestartTimeout) →
  sleepAdvances Inv →
  (152 ≤ fuel)%nat →
  ∃ st' polls,
    restartPod fuel pod st = Some (None, st')
    ∧ calls st' = calls st ++ createOf pod suffix :: polls
    ∧ Forall (λ c, c = poll) polls
    ∧ mkCall VDelete Pods (Namespace (PodMeta pod)) (Name (PodMeta pod))
        ∉ createOf pod suffix :: polls.
Proof.
  intros newPod poll Hrand Hcreate Hinv Hnever Hsleep Hfuel.
  unfold restartPod, bind, randString, request, timeNow.
  rewrite Hrand. simpl. fold newPod. rewrite Hcreate. simpl.
  edestruct (restartPod_wait_deadline Inv pod instance (time_Now w2) fuel
               Hnever Hsleep) as (st' & polls & Hrun & Hcalls & Hpolls);
    [| | | rewrite Hrun].
  - exact Hinv.
  - lia.
  - simpl. unfold WaitForRestartTimeout, ConfigRestartInterval, Second. lia.
  - exists st', polls. split; [done |]. simpl in Hcalls. split.
    + rewrite Hcalls. by rewrite <- app_assoc.
    + split; [done |].
      intros [Heq | Hin]%elem_of_cons; [done |].
      rewrite Forall_forall in Hpolls. by apply Hpolls in Hin.
Qed.

End Properties.

(** * The properties on concrete clusters *)

(** C5, the code as it runs: a pod name of 251 bytes is not longer than
    [ValidNameMaxLength], so [restartPod] appends the hyphen and the
    token to the whole name: with the four bytes of [rand.String] the
    replacement has 256 bytes, more than [ValidNameMaxLength], and that
    is the name sent in the [Create] request. *)
Theorem replacement_name_exceeds_limit :
  String.length Stub.longName = 251%nat
  ∧ (∀ suffix,
       String.length (replacementName Stub.longName suffix)
       = (252 + String.length suffix)%nat)
  ∧ ∃ st' c,
      restartPod (api := Stub.clientset Stub.rollout) 1
        (Stub.pod Stub.longName "default" []) Stub.start = Some (None, st')
      ∧ calls st' !! 0%nat = Some c
      ∧ callVerb c = VCreate
      ∧ String.length (callName c) = 256%nat
      ∧ (ValidNameMaxLength < String.length (callName c))%nat.
Proof.
  split; [reflexivity |]. split.
  - intros suffix.
    change (replacementName Stub.longName suffix)
      with (newSuffixPodName Stub.longName suffix).
    by rewrite length_newSuffixPodName.
  - eexists _, _. split; [vm_compute; reflexivity |].
    split; [reflexivity |]. split; [reflexivity |].
    split; [reflexivity | vm_compute; lia].
Qed.

(** C1, the code as it runs: two pods owned by the same Deployment via
    two ReplicaSets should lead to exactly one [Update] of the
    Deployment.  Mid-rollout, with one pod of the old ReplicaSet and one
    of the new, both ReplicaSets owned by the Deployment
    [nginx-database], the resolver on both returns [nil] twice, records
    the keys of the two ReplicaSets and has sent two [Update] requests
    to the Deployment: [restarted] holds the key of the ReplicaSet while
    [restartReplicaSet] restarts the Deployment and records nothing for
    it. *)
Lemma two_replicasets_update_twice :
  replicaSetOf (api := Stub.clientset Stub.rollout) "default"
    "nginx-database-5d59d67564" "nginx-database"
  ∧ replicaSetOf (api := Stub.clientset Stub.rollout) "default"
      "nginx-database-7c5ddbdf54" "nginx-database"
  ∧ ∃ restarted' st',
      resolveBoth (api := Stub.clientset Stub.rollout) 0 []
        Stub.podOld Stub.podNew Stub.start
      = Some ((None, None, restarted'), st')
      ∧ restarted' = ["nginx-database-5d59d67564|ReplicaSet|default";
                      "nginx-database-7c5ddbdf54|ReplicaSet|default"]
      ∧ updatesOf "default" "nginx-database" (calls st') = 2%nat
      ∧ updatesOf "default" "nginx-database" (calls st') ≠ 1%nat.
Proof.
  split; [| split].
  - intros w. eexists _, _. repeat split; reflexivity.
  - intros w. eexists _, _. repeat split; reflexivity.
  - eexists _, _. split; [vm_compute; reflexivity |].
    split; [reflexivity |]. split; [reflexivity | vm_compute; lia].
Qed.

Lemma deployment_updates_per_replicaset_witness :
  (∃ restarted' st' new,
     resolveBoth (api := Stub.clientset Stub.rollout) 0 []
       Stub.podOld Stub.podOld' Stub.start
     = Some ((None, None, restarted'), st')
     ∧ calls st' = calls Stub.start ++ new
     ∧ updatesOf "default" "nginx-database" new = 1%nat)
  ∧ (∃ restarted' st' new,
       resolveBoth (api := Stub.clientset Stub.rollout) 0 []
         Stub.podOld' Stub.podOld Stub.start
       = Some ((None, None, restarted'), st')
       ∧ calls st' = calls Stub.start ++ new
       ∧ updatesOf "default" "nginx-database" new = 1%nat).
Proof.
  apply (deployment_updates_per_replicaset
           (api := Stub.clientset Stub.rollout) 0 [] Stub.podOld Stub.podOld'
           "default" "nginx-database-5d59d67564" "nginx-database-5d59d67564"
           "nginx-database" Stub.start).
  - reflexivity.
  - reflexivity.
  - reflexivity.
  - reflexivity.
  - intros w. eexists _, _. repeat split; reflexivity.
  - intros w. eexists _, _. repeat split; reflexivity.
  - split.
    + intros w. eexists. split; reflexivity.
    + intros w d Hname. simpl. rewrite Hname. reflexivity.
  - apply not_elem_of_nil.
  - apply not_elem_of_nil.
Defined.

Lemma ledger_check_call_insert_witness :
  getResourceType "StatefulSet" ≠ "Pod"
  ∧ restartResourceFromPod_owners (api := Stub.clientset Stub.stuck) 0
      Stub.podSts [mkOwnerReference "StatefulSet" "nginx-database"] []
      Stub.start
    = Some ((Some "not found", []),
            answered Stub.start
              (mkCall VGet StatefulSets "default" "nginx-database") 0)
  ∧ restartResourceFromPod (api := Stub.clientset Stub.stuck) 0 []
      Stub.podSts'
      (answered Stub.start
         (mkCall VGet StatefulSets "default" "nginx-database") 0)
    = Some ((Some "not found", []),
            answered
              (answered Stub.start
                 (mkCall VGet StatefulSets "default" "nginx-database") 0)
              (mkCall VGet StatefulSets "default" "nginx-database") 0).
Proof.
  assert (Hkind : getResourceType "StatefulSet" ≠ "Pod") by discriminate.
  destruct (ledger_check_call_insert (api := Stub.clientset Stub.stuck) 0
              Stub.podSts (mkOwnerReference "StatefulSet" "nginx-database")
              [] [] Stub.start Hkind) as [_ Hfresh].
  destruct (Hfresh (not_elem_of_nil _)) as (Hfail & _ & Hretry).
  split; [exact Hkind |]. split.
  - apply Hfail. reflexivity.
  - rewrite (Hretry Stub.podSts' [] []); [reflexivity | reflexivity
      | reflexivity | apply not_elem_of_nil].
Defined.

(** C4 fails for bare pod names: two ownerless pods of the same name in
    the namespaces [default] and [staging] are both replaced, and the
    name is in [restarted] twice. *)
Lemma same_name_recorded_twice :
  ∃ out st',
    main_pods (api := Stub.clientset Stub.rollout) 1
      [Stub.podAlpha; Stub.podAlphaStaging] [] [] Stub.start
    = Some (out, st')
    ∧ out = ([], ["nginx-pod-database-alpha"; "nginx-pod-database-alpha"])
    ∧ occurrences "nginx-pod-database-alpha" (snd out) = 2%nat
    ∧ ¬ (occurrences "nginx-pod-database-alpha" (snd out) ≤ 1)%nat.
Proof.
  eexists _, _. split; [vm_compute; reflexivity |].
  split; [reflexivity |]. split; [reflexivity | vm_compute; lia].
Qed.

Lemma restartPod_timeout_keeps_original_witness :
  ∃ st' polls,
    restartPod (api := Manifest.late) 152 Stub.podAlpha Stub.start
    = Some (None, st')
    ∧ calls st' = calls Stub.start
        ++ mkCall VCreate Pods "default" "nginx-pod-database-alpha-xxxx"
        :: polls
    ∧ Forall (λ c, c = mkCall VGet Pods "default"
                         "nginx-pod-database-alpha-xxxx") polls
    ∧ mkCall VDelete Pods "default" "nginx-pod-database-alpha"
        ∉ mkCall VCreate Pods "default" "nginx-pod-database-alpha-xxxx"
          :: polls.
Proof.
  apply (restartPod_timeout_keeps_original
           (api := Manifest.late) (λ _, True) 152 Stub.podAlpha
           (mkPod (Stub.meta "nginx-pod-database-alpha-xxxx" "default" [])
                  (mkPodSpec []) PodPending)
           "xxxx" 0 0 Stub.start).
  - reflexivity.
  - reflexivity.
  - exact I.
  - intros w _. split; [exact I |]. split; [simpl; lia |].
    intros Hbefore p [= <-]. simpl in Hbefore |- *.
    unfold WaitForRestartTimeout, Second in *.
    rewrite decide_False by lia. discriminate.
  - intros w d _. split; [exact I | simpl; lia].
  - lia.
Defined.

Lemma replacement_name_shape_witness :
  ∃ err st',
    restartPod (api := Stub.clientset Stub.rollout) 1 Stub.podAlpha
      Stub.start = Some (err, st')
    ∧ (∃ later, calls st' = calls Stub.start
         ++ mkCall VCreate Pods "default" "nginx-pod-database-alpha-xxxx"
         :: later)
    ∧ replacementName "nginx-pod-database-alpha" "xxxx"
      = "nginx-pod-database-alpha-xxxx".
Proof.
  eexists _, _. split; [vm_compute; reflexivity |].
  destruct (replacement_name_shape (api := Stub.clientset Stub.rollout) 1
              Stub.podAlpha Stub.start _ _ eq_refl eq_refl)
    as (Hcreate & Hshort & _).
  split; [exact Hcreate |]. apply Hshort. vm_compute. lia.
Defined.

Lemma orphan_replicaset_is_recorded_witness :
  restartResourceFromPod (api := Stub.clientset Stub.rollout) 0 []
    Stub.podBare Stub.start
  = Some ((None, ["nginx-database-bare|ReplicaSet|default"]),
          answered Stub.start
            (mkCall VGet ReplicaSets "default" "nginx-database-bare") 0)
  ∧ Forall (λ c, isMutating c = false)
           [mkCall VGet ReplicaSets "default" "nginx-database-bare"].
Proof.
  apply (orphan_replicaset_is_recorded (api := Stub.clientset Stub.rollout)
           0 [] Stub.podBare "nginx-database-bare"
           (Stub.controller "nginx-database-bare" "default" []) 0
           Stub.start).
  - reflexivity.
  - reflexivity.
  - reflexivity.
  - apply not_elem_of_nil.
Defined.

(** * Further properties of the program *)

Lemma append_cancel_l (a b c : string) : a +:+ b = a +:+ c → b = c.
Proof.
  induction a as [|x a IH]; intros Heq; [done |].
  change (String x (a +:+ b) = String x (a +:+ c)) in Heq.
  injection Heq as Heq. by apply IH.
Qed.

Lemma barFree_split (a b x y : string) :
  barFree a = true → barFree b = true →
  a +:+ "|" +:+ x = b +:+ "|" +:+ y → a = b ∧ x = y.
Proof.
  revert b. induction a as [|c a IH]; intros [|d b] Ha Hb Heq.
  - split; [done |]. by injection Heq.
  - exfalso. injection Heq as Hc _. subst d. simpl in Hb. discriminate Hb.
  - exfalso. injection Heq as Hc _. subst c. simpl in Ha. discriminate Ha.
  - change (String c (a +:+ "|" +:+ x) = String d (b +:+ "|" +:+ y)) in Heq.
    injection Heq as -> Heq. simpl in Ha, Hb.
    apply andb_true_iff in Ha as [_ Ha]. apply andb_true_iff in Hb as [_ Hb].
    destruct (IH b Ha Hb Heq) as [-> ->]. done.
Qed.

Lemma barFree_no_bar (a pre post : string) :
  barFree a = true → a ≠ pre +:+ "|" +:+ post.
Proof.
  revert pre. induction a as [|c a IH]; intros [|d pre] Ha Heq;
    try discriminate Heq.
  - injection Heq as -> _. simpl in Ha. discriminate Ha.
  - change (String c a = String d (pre +:+ "|" +:+ post)) in Heq.
    injection Heq as -> Heq. simpl in Ha.
    apply andb_true_iff in Ha as [_ Ha]. by eapply IH.
Qed.

Section Coverage.
Context {W : Type} {api : Clientset W}.

(** ** Classification and keys *)

(** X1: [getResourceType] returns one of the four controller kinds
    exactly for that kind, "Pod" exactly for the empty kind and
    "unsupported" for every other kind; it never returns "unknown", the
    value the guard of line 174 tests for. *)
Theorem getResourceType_classifies (kind : string) :
  (∀ K, K ∈ ["ReplicaSet"; "Deployment"; "StatefulSet"; "DaemonSet"] →
        getResourceType kind = K ↔ kind = K)
  ∧ (getResourceType kind = "Pod" ↔ kind = "")
  ∧ (getResourceType kind = "unsupported"
     ↔ kind ∉ ["ReplicaSet"; "Deployment"; "StatefulSet"; "DaemonSet"; ""])
  ∧ getResourceType kind ≠ "unknown".
Proof.
  unfold getResourceType. split; [| split; [| split]].
  - intros K HK.
    repeat (apply elem_of_cons in HK as [-> | HK]);
      [| | | | by apply elem_of_nil in HK];
      repeat case_decide; subst; split; intros; done.
  - repeat case_decide; subst; split; intros; done.
  - repeat case_decide; subst; split; intros H'; try done;
      try (exfalso; apply H'; elem_listed).
    intros Hin.
    repeat (apply elem_of_cons in Hin as [-> | Hin]); try done.
    by apply elem_of_nil in Hin.
  - by repeat case_decide.
Qed.

(** X2: the key of an owner reference determines the owner and the
    namespace as long as names and kinds are free of the separator:
    two references with the same key are the same reference of pods in
    the same namespace, and no separator-free pod name equals a key. *)
Theorem matchKey_injective (o1 o2 : OwnerReference) (pod1 pod2 : Pod) :
  barFree (OwnerName o1) = true → barFree (Kind o1) = true →
  barFree (OwnerName o2) = true → barFree (Kind o2) = true →
  (matchKey o1 pod1 = matchKey o2 pod2 →
   o1 = o2 ∧ Namespace (PodMeta pod1) = Namespace (PodMeta pod2))
  ∧ (∀ bare, barFree bare = true → bare ≠ matchKey o1 pod1).
Proof.
  intros Hn1 Hk1 Hn2 Hk2. split.
  - unfold matchKey. intros Heq.
    apply barFree_split in Heq as [Hname Heq]; [| done | done].
    apply barFree_split in Heq as [Hkind Hns]; [| done | done].
    split; [| done]. destruct o1, o2. simpl in *. by subst.
  - intros bare Hbare. unfold matchKey. by apply barFree_no_bar.
Qed.

(** ** The loop over the owner references, again *)

(** X3: an owner of a kind outside the five that [getResourceType]
    knows is not skipped.  With its key absent, the loop issues no
    request and prints nothing for it, appends the key and goes on;
    with its key present it prints the "already restarted" line. *)
Theorem unsupported_owner_step (fuel : nat) (pod : Pod)
    (ownerRef : OwnerReference) (rest : list OwnerReference)
    (restarted : list string) (st : St W) :
  Kind ownerRef
    ∉ ["ReplicaSet"; "Deployment"; "StatefulSet"; "DaemonSet"; ""] →
  restartResourceFromPod_owners fuel pod (ownerRef :: rest) restarted st
  = if slices_Contains restarted (matchKey ownerRef pod)
    then restartResourceFromPod_owners fuel pod rest restarted
           {| world := world st; calls := calls st;
              stdout := stdout st
                ++ ["skipping already restarted resource: "
                    +:+ matchKey ownerRef pod +:+ LF] |}
    else restartResourceFromPod_owners fuel pod rest
           (restarted ++ [matchKey ownerRef pod]) st.
Proof.
  intros Hkind.
  assert (Htype : getResourceType (Kind ownerRef) = "unsupported").
  { apply getResourceType_unsupported; intros Heq; apply Hkind;
      rewrite Heq; elem_listed. }
  destruct (slices_Contains restarted (matchKey ownerRef pod)) eqn:Hseen.
  - apply owners_step_seen; [by rewrite Htype |].
    by apply slices_Contains_true.
  - rewrite owners_step_fresh;
      [| by rewrite Htype | by apply slices_Contains_false].
    by rewrite Htype.
Qed.

(** X4: a pod that has owner references, all of them without a kind,
    is left alone: the resolver returns [nil], records nothing and
    issues no request, and the pod itself is not replaced either. *)
Theorem kindless_owners_are_ignored (fuel : nat) (restarted : list string)
    (pod : Pod) (st : St W) :
  OwnerReferences (PodMeta pod) ≠ [] →
  Forall (λ o, Kind o = "") (OwnerReferences (PodMeta pod)) →
  restartResourceFromPod fuel restarted pod st = Some ((None, restarted), st).
Proof.
  intros Hne Hall. rewrite restartResourceFromPod_owned by done.
  clear Hne. induction Hall as [|o rest Ho _ IH]; [done |].
  rewrite owners_step_pod; [exact IH | by rewrite Ho].
Qed.

(** ** Controllers restarted in place *)

(** X5: when the fetch of the controller fails, [restartDeployment],
    [restartDaemonSet] and [restartStatefulSet] return the error of the
    fetch, and the fetch is the only request they issue: nothing is
    written. *)
Theorem restartController_fetch_failure (r : Resource)
    (name namespace e : string) (w1 : W) (st : St W) :
  Apps_Get r namespace name (world st) = (Err e, w1) →
  restartController r name namespace st
  = Some (Some e, answered st (mkCall VGet r namespace name) w1).
Proof.
  intros Hget.
  unfold restartController, bind, getController, request, answered.
  by rewrite Hget.
Qed.

(** X6: when the fetch succeeds, they issue that fetch and one update
    and return what the update returns.  The object written is the one
    fetched, with its own metadata and the name, namespace, labels and
    owner references of its template untouched; in the annotations of
    the template [kubectl.kubernetes.io/restartedAt] holds the formatted
    current time and every other key keeps its value, a [nil] map being
    replaced by a fresh one. *)
Theorem restartController_touches_annotation (r : Resource)
    (name namespace : string) (obj : Controller) (w1 : W) (st : St W) :
  let key := "kubectl.kubernetes.io/restartedAt" in
  let stamp := time_Format_RFC3339 (time_Now w1) in
  let sent := setRestartedAt obj stamp in
  let answer := Apps_Update r namespace sent w1 in
  Apps_Get r namespace name (world st) = (Ok obj, w1) →
  restartController r name namespace st
  = Some (fst answer,
          answered (answered st (mkCall VGet r namespace name) w1)
            (mkCall VUpdate r namespace (Name (Meta obj))) (snd answer))
  ∧ Meta sent = Meta obj
  ∧ Name (TemplateMeta sent) = Name (TemplateMeta obj)
  ∧ Namespace (TemplateMeta sent) = Namespace (TemplateMeta obj)
  ∧ Labels (TemplateMeta sent) = Labels (TemplateMeta obj)
  ∧ OwnerReferences (TemplateMeta sent) = OwnerReferences (TemplateMeta obj)
  ∧ Annotations (TemplateMeta sent) ≠ None
  ∧ templateAnnotations sent !! key = Some stamp
  ∧ ∀ other, other ≠ key →
      templateAnnotations sent !! other = templateAnnotations obj !! other.
Proof.
  intros key stamp sent answer Hget. split.
  - unfold restartController, bind, getController, updateController, request,
      timeNow, answered.
    rewrite Hget. simpl. fold stamp sent answer.
    by destruct answer.
  - repeat split; try done.
    + unfold templateAnnotations, sent, setRestartedAt. simpl.
      apply lookup_insert_eq.
    + intros other Hother.
      unfold templateAnnotations, sent, setRestartedAt. simpl.
      by rewrite lookup_insert_ne.
Qed.

(** X7: [isPodRunning] issues one fetch of the pod and answers [true]
    exactly when the fetch succeeds with phase [Running]; a failed
    fetch and every other phase read as [false]. *)
Theorem isPodRunning_reads_phase (name namespace : string) (st : St W) :
  let answer := Pods_Get namespace name (world st) in
  ∃ b,
    isPodRunning name namespace st
    = Some (b, answered st (mkCall VGet Pods namespace name) (snd answer))
    ∧ (b = true ↔ ∃ p, fst answer = Ok p ∧ Phase p = PodRunning).
Proof.
  intros answer. subst answer.
  unfold isPodRunning, bind, request, answered.
  destruct (Pods_Get namespace name (world st)) as [[p|e] w1]; simpl.
  - repeat case_decide; eexists; (split; [done |]); split; intros H';
      try done.
    + by exists p.
    + destruct H' as (p' & [= <-] & Hphase). done.
    + destruct H' as (p' & [= <-] & Hphase). done.
  - eexists. split; [done |]. split; [done |].
    intros (p & Hp & _). discriminate Hp.
Qed.

(** ** What a restart may touch *)

Lemma restartController_trace (r : Resource) (name namespace : string)
    (st : St W) :
  ∃ err st' new,
    restartController r name namespace st = Some (err, st')
    ∧ calls st' = calls st ++ new
    ∧ stdout st' = stdout st
    ∧ Forall (λ c, callResource c = r ∧ callNamespace c = namespace
                   ∧ callVerb c ∈ [VGet; VUpdate]) new.
Proof.
  unfold restartController, bind, getController, updateController, request,
    timeNow.
  destruct (Apps_Get r namespace name (world st)) as [[obj|e] w1]; simpl.
  - destruct (Apps_Update _ _ _ _) as [err w2].
    eexists _, _, [_; _]. split; [done |]. simpl.
    split; [by rewrite <- app_assoc |]. split; [done |].
    repeat constructor.
  - eexists _, _, [_]. split; [done |]. split; [done |]. split; [done |].
    repeat constructor.
Qed.

Lemma restartResource_trace (fuel : nat) (resourceType name : string)
    (pod : Pod) (st : St W) :
  resourceType ≠ "Pod" →
  ∃ err st' new,
    restartResource fuel resourceType name pod st = Some (err, st')
    ∧ calls st' = calls st ++ new
    ∧ stdout st' = stdout st
    ∧ Forall (λ c, callResource c ∈ resourcesOf resourceType
                   ∧ callNamespace c = Namespace (PodMeta pod)
                   ∧ callVerb c ∈ [VGet; VUpdate]) new.
Proof.
  intros Hpod. unfold restartResource, resourcesOf.
  destruct (decide (resourceType = "ReplicaSet")) as [->|Hrs].
  - rewrite restartReplicaSet_unfold. cbv zeta.
    set (ns := Namespace (PodMeta pod)).
    set (st1 := answered st _ _).
    assert (Hfetch : callResource (mkCall VGet ReplicaSets ns name)
                       ∈ [ReplicaSets; Deployments]
                     ∧ callNamespace (mkCall VGet ReplicaSets ns name) = ns
                     ∧ callVerb (mkCall VGet ReplicaSets ns name)
                         ∈ [VGet; VUpdate]).
    { repeat split; simpl; elem_listed. }
    destruct (fst (Apps_Get ReplicaSets ns name (world st))) as [rs|e].
    + destruct (firstDeployment _) as [o|].
      * destruct (restartController_trace Deployments (OwnerName o) ns st1)
          as (err & st' & new & Hrun & Hcalls & Hout & Hnew).
        exists err, st', (mkCall VGet ReplicaSets ns name :: new).
        split; [exact Hrun |]. split.
        { rewrite Hcalls. simpl. by rewrite <- app_assoc. }
        split; [done |]. constructor; [done |].
        eapply Forall_impl; [exact Hnew |].
        intros c (Hr & Hn & Hv). rewrite Hr. repeat split; [elem_listed | done..].
      * exists None, st1, [mkCall VGet ReplicaSets ns name].
        repeat split; by repeat constructor.
    + exists (Some e), st1, [mkCall VGet ReplicaSets ns name].
      repeat split; by repeat constructor.
  - repeat case_decide; try done.
    + destruct (restartController_trace Deployments name
                  (Namespace (PodMeta pod)) st)
        as (err & st' & new & Hrun & Hcalls & Hout & Hnew).
      exists err, st', new. repeat split; try done.
      eapply Forall_impl; [exact Hnew |].
      intros c (Hr & Hn & Hv). rewrite Hr. repeat split; [elem_listed | done..].
    + destruct (restartController_trace StatefulSets name
                  (Namespace (PodMeta pod)) st)
        as (err & st' & new & Hrun & Hcalls & Hout & Hnew).
      exists err, st', new. repeat split; try done.
      eapply Forall_impl; [exact Hnew |].
      intros c (Hr & Hn & Hv). rewrite Hr. repeat split; [elem_listed | done..].
    + destruct (restartController_trace DaemonSets name
                  (Namespace (PodMeta pod)) st)
        as (err & st' & new & Hrun & Hcalls & Hout & Hnew).
      exists err, st', new. repeat split; try done.
      eapply Forall_impl; [exact Hnew |].
      intros c (Hr & Hn & Hv). rewrite Hr. repeat split; [elem_listed | done..].
    + exists None, st, []. repeat split; try done.
      by rewrite app_nil_r.
Qed.

(** X8: for every resource type but "Pod", [restartResource] returns
    whatever the fuel, prints nothing, and issues only fetches and
    updates, in the namespace of the pod, against the resources of that
    type: Deployments for "Deployment", StatefulSets for "StatefulSet",
    DaemonSets for "DaemonSet", ReplicaSets and Deployments for
    "ReplicaSet", and none at all for any other type. *)
Theorem restartResource_targets (fuel : nat) (resourceType name : string)
    (pod : Pod) (st : St W) :
  resourceType ≠ "Pod" →
  ∃ err st' new,
    restartResource fuel resourceType name pod st = Some (err, st')
    ∧ calls st' = calls st ++ new
    ∧ stdout st' = stdout st
    ∧ Forall (λ c, callResource c ∈ resourcesOf resourceType
                   ∧ callNamespace c = Namespace (PodMeta pod)
                   ∧ callVerb c ∈ [VGet; VUpdate]) new.
Proof. apply restartResource_trace. Qed.

Lemma owners_trace (fuel : nat) (pod : Pod)
    (ownerRefs : list OwnerReference) :
  ∀ restarted (st : St W),
    ∃ err added st' new,
      restartResourceFromPod_owners fuel pod ownerRefs restarted st
      = Some ((err, restarted ++ added), st')
      ∧ calls st' = calls st ++ new
      ∧ Forall (λ c, callResource c ≠ Pods
                     ∧ callNamespace c = Namespace (PodMeta pod)
                     ∧ callVerb c ∈ [VGet; VUpdate]) new
      ∧ Forall (λ entry, ∃ o, o ∈ ownerRefs ∧ entry = matchKey o pod
                              ∧ getResourceType (Kind o) ≠ "Pod"
                              ∧ entry ∉ restarted) added.
Proof.
  induction ownerRefs as [|o rest IH]; intros restarted st.
  - exists None, [], st, []. rewrite !app_nil_r. by repeat split.
  - destruct (decide (getResourceType (Kind o) = "Pod")) as [Hpod|Hpod].
    { rewrite owners_step_pod by done.
      destruct (IH restarted st) as (err & added & st' & new & Hrun & Hcalls
                                     & Hnew & Hadded).
      exists err, added, st', new. repeat split; try done.
      eapply Forall_impl; [exact Hadded |].
      intros entry (o' & Hin & Hrest). exists o'. split; [by right | done]. }
    destruct (decide (matchKey o pod ∈ restarted)) as [Hseen|Hfresh].
    { rewrite owners_step_seen by done.
      destruct (IH restarted
                  {| world := world st; calls := calls st;
                     stdout := stdout st
                       ++ ["skipping already restarted resource: "
                           +:+ matchKey o pod +:+ LF] |})
        as (err & added & st' & new & Hrun & Hcalls & Hnew & Hadded).
      exists err, added, st', new. repeat split; try done.
      eapply Forall_impl; [exact Hadded |].
      intros entry (o' & Hin & Hrest). exists o'. split; [by right | done]. }
    rewrite owners_step_fresh by done.
    destruct (restartResource_trace fuel (getResourceType (Kind o))
                (OwnerName o) pod st Hpod)
      as (e & st1 & new1 & Hrun1 & Hcalls1 & _ & Hnew1).
    assert (Hnew1' : Forall (λ c, callResource c ≠ Pods
                     ∧ callNamespace c = Namespace (PodMeta pod)
                     ∧ callVerb c ∈ [VGet; VUpdate]) new1).
    { eapply Forall_impl; [exact Hnew1 |].
      intros c (Hr & Hn & Hv). repeat split; try done.
      intros Heq. rewrite Heq in Hr. unfold resourcesOf in Hr.
      repeat case_decide; elem_absurd Hr. }
    rewrite Hrun1. destruct e as [e|].
    + exists (Some e), [], st1, new1. rewrite app_nil_r. by repeat split.
    + destruct (IH (restarted ++ [matchKey o pod]) st1)
        as (err & added & st' & new & Hrun & Hcalls & Hnew & Hadded).
      exists err, (matchKey o pod :: added), st', (new1 ++ new).
      split; [by rewrite Hrun, <- app_assoc |].
      split; [by rewrite Hcalls, Hcalls1, <- app_assoc |].
      split; [by apply Forall_app |].
      constructor.
      * exists o. repeat split; try done. by left.
      * eapply Forall_impl; [exact Hadded |].
        intros entry (o' & Hin & Hkey & Htype & Hout).
        exists o'. repeat split; try done; [by right |].
        intros Hin'. apply Hout. apply elem_of_app. by left.
Qed.

Lemma owned_pod_is_never_replaced_aux (fuel : nat)
    (restarted : list string) (pod : Pod) (st : St W) :
  OwnerReferences (PodMeta pod) ≠ [] →
  ∃ err added st' new,
    restartResourceFromPod fuel restarted pod st
    = Some ((err, restarted ++ added), st')
    ∧ calls st' = calls st ++ new
    ∧ Forall (λ c, callResource c ≠ Pods
                   ∧ callNamespace c = Namespace (PodMeta pod)
                   ∧ callVerb c ∈ [VGet; VUpdate]) new
    ∧ Forall (λ entry, ∃ o, o ∈ OwnerReferences (PodMeta pod)
                            ∧ entry = matchKey o pod
                            ∧ getResourceType (Kind o) ≠ "Pod"
                            ∧ entry ∉ restarted) added.
Proof.
  intros Hne. rewrite restartResourceFromPod_owned by done.
  apply owners_trace.
Qed.

(** X9: a pod that has owner references is never replaced: for any
    fuel the resolver returns, its requests are fetches and updates in
    the namespace of the pod and none is against Pods, and the slice it
    hands back is the one it got followed by keys of owner references
    of the pod that were not in it. *)
Theorem owned_pod_is_never_replaced (fuel : nat) (restarted : list string)
    (pod : Pod) (st : St W) :
  OwnerReferences (PodMeta pod) ≠ [] →
  ∃ err added st' new,
    restartResourceFromPod fuel restarted pod st
    = Some ((err, restarted ++ added), st')
    ∧ calls st' = calls st ++ new
    ∧ Forall (λ c, callResource c ≠ Pods
                   ∧ callNamespace c = Namespace (PodMeta pod)
                   ∧ callVerb c ∈ [VGet; VUpdate]) new
    ∧ Forall (λ entry, ∃ o, o ∈ OwnerReferences (PodMeta pod)
                            ∧ entry = matchKey o pod
                            ∧ getResourceType (Kind o) ≠ "Pod"
                            ∧ entry ∉ restarted) added.
Proof.
  intros Hne. rewrite restartResourceFromPod_owned by done.
  apply owners_trace.
Qed.

(** ** Replacing an ownerless pod, again *)

Lemma restartPod_unfold (fuel : nat) (pod : Pod) (st : St W) :
  restartPod fuel pod st
  = match fst (created pod st) with
    | Err e => Some (Some e, snd (created pod st))
    | Ok instance =>
        restartPod_wait fuel (time_Now (world (snd (created pod st)))) pod
          instance (snd (created pod st))
    end.
Proof.
  unfold restartPod, created, bind, randString, request, timeNow, answered,
    createOf.
  destruct (rand_String _ (world st)) as [suffix w1]. simpl.
  by destruct (Pods_Create _ _ _) as [[instance|e] w2].
Qed.

Lemma restartResourceFromPod_ownerless (fuel : nat)
    (restarted : list string) (pod : Pod) (st : St W) :
  OwnerReferences (PodMeta pod) = [] →
  restartResourceFromPod fuel restarted pod st
  = match restartPod fuel pod st with
    | Some (Some e, st') => Some ((Some e, restarted), st')
    | Some (None, st') => Some ((None, restarted ++ [Name (PodMeta pod)]), st')
    | None => None
    end.
Proof.
  intros Hown. unfold restartResourceFromPod. rewrite Hown. simpl.
  change (restartResource fuel "Pod" "" pod) with (restartPod fuel pod).
  unfold bind. by destruct (restartPod fuel pod st) as [[[e|] st']|].
Qed.

(** X10: when the [Create] of the replacement fails, the resolver
    returns that error for an ownerless pod, whatever the fuel; it has
    issued the [Create] only, so the original is neither polled for nor
    deleted, and [restarted] is handed back unchanged. *)
Theorem create_failure_is_reported (fuel : nat) (restarted : list string)
    (pod : Pod) (e : string) (st : St W) :
  OwnerReferences (PodMeta pod) = [] →
  fst (created pod st) = Err e →
  restartResourceFromPod fuel restarted pod st
  = Some ((Some e, restarted), snd (created pod st))
  ∧ calls (snd (created pod st))
    = calls st
      ++ [createOf pod
            (fst (rand_String (ConfigNameSuffixLength - 1) (world st)))].
Proof.
  intros Hown Hfail. split; [| done].
  rewrite restartResourceFromPod_ownerless by done.
  by rewrite restartPod_unfold, Hfail.
Qed.

Lemma restartPod_wait_first_running (fuel : nat) (start : Z)
    (pod instance p : Pod) (w3 : W) (st : St W) :
  ¬ WaitForRestartTimeout < time_Now (world st) - start →
  Pods_Get (Namespace (PodMeta instance)) (Name (PodMeta instance))
    (world st) = (Ok p, w3) →
  Phase p = PodRunning →
  ∃ st',
    restartPod_wait (S fuel) start pod instance st
    = Some (fst (Pods_Delete (Namespace (PodMeta pod)) (Name (PodMeta pod))
                   w3), st')
    ∧ world st'
      = snd (Pods_Delete (Namespace (PodMeta pod)) (Name (PodMeta pod)) w3)
    ∧ calls st' = calls st ++ [pollOf instance; deleteOf pod].
Proof.
  intros Hin Hget Hphase. simpl. unfold bind, timeNow.
  rewrite decide_False by done.
  unfold isPodRunning, bind, request. rewrite Hget. simpl.
  rewrite decide_True by done. simpl.
  unfold deletePod, request. simpl.
  destruct (Pods_Delete _ _ _) as [e w4]. simpl.
  eexists. split; [done |]. simpl. by rewrite <- app_assoc.
Qed.

(** X11: when the replacement is created and the first poll shows it
    running, [restartPod] needs one round of its loop: the resolver has
    issued the [Create], one fetch of the replacement and the [Delete]
    of the original, in that order, and returns what the [Delete]
    returned.  The name of the pod is appended to [restarted] only if
    the [Delete] succeeded; if it failed, the replacement stays next to
    the original and nothing is recorded. *)
Theorem running_replacement_deletes_original (fuel : nat)
    (restarted : list string) (pod instance p : Pod) (w3 : W) (st : St W) :
  let st2 := snd (created pod st) in
  let gone :=
    Pods_Delete (Namespace (PodMeta pod)) (Name (PodMeta pod)) w3 in
  OwnerReferences (PodMeta pod) = [] →
  fst (created pod st) = Ok instance →
  Pods_Get (Namespace (PodMeta instance)) (Name (PodMeta instance))
    (world st2) = (Ok p, w3) →
  Phase p = PodRunning →
  (1 ≤ fuel)%nat →
  ∃ st',
    restartResourceFromPod fuel restarted pod st
    = Some ((fst gone,
             match fst gone with
             | None => restarted ++ [Name (PodMeta pod)]
             | Some _ => restarted
             end), st')
    ∧ world st' = snd gone
    ∧ calls st' = calls st2 ++ [pollOf instance; deleteOf pod].
Proof.
  intros st2 gone Hown Hcreated Hget Hphase Hfuel.
  rewrite restartResourceFromPod_ownerless by done.
  rewrite restartPod_unfold, Hcreated. fold st2.
  destruct fuel as [|fuel]; [lia |].
  destruct (restartPod_wait_first_running fuel (time_Now (world st2)) pod
              instance p w3 st2) as (st' & Hrun & Hworld & Hcalls);
    [| done | done |].
  { unfold WaitForRestartTimeout, Second. lia. }
  rewrite Hrun. fold gone. exists st'.
  by destruct (fst gone).
Qed.

Lemma restartPod_wait_shape (pod instance : Pod) (start : Z) (fuel : nat) :
  ∀ (st : St W) err st',
    restartPod_wait fuel start pod instance st = Some (err, st') →
    ∃ polls tail,
      calls st' = calls st ++ polls ++ tail
      ∧ Forall (λ c, c = pollOf instance) polls
      ∧ (length polls ≤ fuel)%nat
      ∧ ((tail = [] ∧ err = None)
         ∨ (tail = [deleteOf pod] ∧ seenRunning instance)).
Proof.
  induction fuel as [|fuel IH]; intros st err st' Hrun; [done |].
  simpl in Hrun. unfold bind, timeNow in Hrun.
  case_decide.
  - injection Hrun as <- <-. exists [], []. simpl. rewrite app_nil_r.
    repeat split; [by constructor | lia | by left].
  - destruct (isPodRunning_calls (Name (PodMeta instance))
                (Namespace (PodMeta instance)) st) as (b & Hb & Hseen).
    rewrite Hb in Hrun. destruct b; simpl in Hrun.
    + unfold deletePod, request in Hrun.
      destruct (Pods_Delete _ _ _) as [e w2].
      injection Hrun as _ <-. simpl.
      exists [pollOf instance], [deleteOf pod]. simpl.
      rewrite <- app_assoc. repeat split; [by repeat constructor | lia |].
      right. split; [done |].
      destruct Hseen as (p & Hp & Hphase); [done |]. by eexists _, p.
    + apply IH in Hrun as (polls & tail & Hcalls & Hpolls & Hlen & Htail).
      simpl in Hcalls. rewrite <- app_assoc in Hcalls.
      exists (pollOf instance :: polls), tail.
      repeat split; [done | by constructor | simpl; lia | done].
Qed.

Lemma isPodRunning_shows (instance : Pod) (st : St W) :
  ∃ b,
    isPodRunning (Name (PodMeta instance)) (Namespace (PodMeta instance)) st
    = Some (b, answered st (pollOf instance)
                 (snd (Pods_Get (Namespace (PodMeta instance))
                                (Name (PodMeta instance)) (world st))))
    ∧ (b = true ↔ showsRunning instance st).
Proof.
  unfold isPodRunning, bind, request, answered, showsRunning, pollOf.
  destruct (Pods_Get _ _ (world st)) as [[p|e] w1]; simpl.
  - repeat case_decide; eexists; (split; [done |]); split; intros H';
      try done.
    + by exists p.
    + destruct H' as (p' & [= <-] & Hphase). done.
    + destruct H' as (p' & [= <-] & Hphase). done.
  - eexists. split; [done |]. split; [done |].
    intros (p & Hp & _). discriminate Hp.
Qed.

Lemma afterPolls_calls (instance : Pod) (n : nat) :
  ∀ st : St W,
    calls (afterPolls instance n st)
    = calls st ++ replicate n (pollOf instance).
Proof.
  induction n as [|n IH]; intros st; simpl.
  - by rewrite app_nil_r.
  - rewrite IH. simpl. by rewrite <- app_assoc.
Qed.

Lemma restartPod_wait_run (pod instance : Pod) (start : Z) (fuel : nat) :
  ∀ (st : St W) err st',
    restartPod_wait fuel start pod instance st = Some (err, st') →
    ∃ n,
      (n < fuel)%nat
      ∧ (∀ i, (i < n)%nat →
              ¬ showsRunning instance (afterPolls instance i st))
      ∧ ((err = None ∧ calls st' = calls (afterPolls instance n st))
         ∨ (showsRunning instance (afterPolls instance n st)
            ∧ calls st' = calls (afterPolls instance n st)
                ++ [pollOf instance; deleteOf pod])).
Proof.
  induction fuel as [|fuel IH]; intros st err st' Hrun; [done |].
  simpl in Hrun. unfold bind, timeNow in Hrun.
  case_decide.
  - injection Hrun as <- <-. exists 0%nat.
    split; [lia |]. split; [intros i Hi; lia |]. by left.
  - destruct (isPodRunning_shows instance st) as (b & Hb & Hshows).
    rewrite Hb in Hrun. destruct b; simpl in Hrun.
    + unfold deletePod, request in Hrun.
      destruct (Pods_Delete _ _ _) as [e w2].
      injection Hrun as _ <-. exists 0%nat.
      split; [lia |]. split; [intros i Hi; lia |].
      right. split; [by apply Hshows |].
      simpl. by rewrite <- app_assoc.
    + change (restartPod_wait fuel start pod instance
                (missedPoll instance st) = Some (err, st')) in Hrun.
      apply IH in Hrun as (n & Hn & Hmissed & Hend).
      exists (S n). split; [lia |]. split; [| exact Hend].
      intros [|i] Hi.
      * simpl. intros Hyes. apply Hshows in Hyes. discriminate Hyes.
      * simpl. apply Hmissed. lia.
Qed.

(** X12: whenever [restartPod] returns, for any cluster and any fuel,
    either the [Create] failed and nothing else was requested, or the
    run is a number [n] of polls of the pod that the [Create] returned,
    none of which showed it running, each followed by the
    [time.Sleep], and then one of two ends: the timeout, with [nil] and
    no further request, or one more poll, in the state those rounds
    left, that did show it running, followed by the [Delete] of the
    original as the last request.  So the [Delete] is issued at most
    once and only after the poll just before it showed the replacement
    in phase [Running]. *)
Theorem original_deleted_only_after_running (fuel : nat) (pod : Pod)
    (st : St W) (err : error) (st' : St W) :
  let st2 := snd (created pod st) in
  restartPod fuel pod st = Some (err, st') →
  (∃ e, fst (created pod st) = Err e ∧ err = Some e ∧ st' = st2)
  ∨ ∃ instance n,
      fst (created pod st) = Ok instance
      ∧ (n < fuel)%nat
      ∧ (∀ i, (i < n)%nat →
              ¬ showsRunning instance (afterPolls instance i st2))
      ∧ ((err = None
          ∧ calls st' = calls st2 ++ replicate n (pollOf instance))
         ∨ (showsRunning instance (afterPolls instance n st2)
            ∧ calls st' = calls st2 ++ replicate (S n) (pollOf instance)
                ++ [deleteOf pod])).
Proof.
  intros st2. rewrite restartPod_unfold. fold st2.
  destruct (fst (created pod st)) as [instance|e] eqn:Hcreated.
  - intros (n & Hn & Hmissed & Hend)%restartPod_wait_run.
    right. exists instance, n. split; [done |]. split; [done |].
    split; [done |].
    rewrite afterPolls_calls in Hend.
    destruct Hend as [[-> Hcalls] | [Hyes Hcalls]]; [by left |].
    right. split; [done |].
    rewrite Hcalls, replicate_S_end, <- !app_assoc. done.
  - intros [= <- <-]. left. by exists e.
Qed.

Lemma restartPod_wait_terminates (pod instance : Pod) (start : Z)
    (fuel : nat) :
  fetchKeepsClock → sleepPauses →
  ∀ st : St W,
    (1 ≤ fuel)%nat →
    WaitForRestartTimeout - (time_Now (world st) - start)
      < ConfigRestartInterval * Second * (Z.of_nat fuel - 1) →
    ∃ err st' polls tail,
      restartPod_wait fuel start pod instance st = Some (err, st')
      ∧ calls st' = calls st ++ polls ++ tail
      ∧ Forall (λ c, c = pollOf instance) polls
      ∧ (tail = [] ∨ tail = [deleteOf pod])
      ∧ (polls = []
         ∨ ConfigRestartInterval * Second * (Z.of_nat (length polls) - 1)
           ≤ WaitForRestartTimeout - (time_Now (world st) - start)).
Proof.
  intros Hfetch Hsleep.
  induction fuel as [|fuel IH]; intros st Hfuel Hleft; [lia |].
  simpl. unfold bind, timeNow.
  case_decide as Hout.
  - eexists _, _, [], []. simpl. rewrite app_nil_r.
    repeat split; [by constructor | by left | by left].
  - destruct (isPodRunning_calls (Name (PodMeta instance))
                (Namespace (PodMeta instance)) st) as (b & -> & _).
    destruct b; simpl.
    + unfold deletePod, request.
      destruct (Pods_Delete _ _ _) as [e w2].
      eexists _, _, [pollOf instance], [deleteOf pod]. simpl.
      rewrite <- app_assoc.
      repeat split; [by repeat constructor | by right |].
      right. unfold ConfigRestartInterval, Second in *. lia.
    + pose proof (Hfetch (world st) (Namespace (PodMeta instance))
                    (Name (PodMeta instance))) as Hmono.
      pose proof (Hsleep (snd (Pods_Get (Namespace (PodMeta instance))
                                 (Name (PodMeta instance)) (world st)))
                    (ConfigRestartInterval * Second)) as Hadv.
      unfold ConfigRestartInterval, WaitForRestartTimeout, Second in *.
      edestruct IH as (err & st' & polls & tail & Hrun & Hcalls & Hpolls
                       & Htail & Hbound); [| | rewrite Hrun].
      * lia.
      * simpl. lia.
      * simpl in Hcalls, Hbound. rewrite <- app_assoc in Hcalls.
        eexists _, _, (pollOf instance :: polls), tail.
        repeat split; [done | by constructor | done |].
        right. destruct Hbound as [-> | Hbound]; simpl length; lia.
Qed.

(** X13: on a clock that no fetch turns back and that [time.Sleep]
    advances by at least its argument, [restartPod] returns as soon as
    it has fuel for 152 rounds, whatever the cluster answers; after the
    [Create] it has polled the replacement at most 151 times and then
    issued at most one [Delete], of the original pod. *)
Theorem restartPod_returns_within_timeout (fuel : nat) (pod : Pod)
    (st : St W) :
  fetchKeepsClock → sleepPauses →
  (152 ≤ fuel)%nat →
  ∃ err st' polls tail,
    restartPod fuel pod st = Some (err, st')
    ∧ calls st' = calls (snd (created pod st)) ++ polls ++ tail
    ∧ Forall (λ c, callVerb c = VGet ∧ callResource c = Pods) polls
    ∧ (length polls ≤ 151)%nat
    ∧ (tail = [] ∨ tail = [deleteOf pod]).
Proof.
  intros Hfetch Hsleep Hfuel. rewrite restartPod_unfold.
  destruct (fst (created pod st)) as [instance|e].
  - edestruct (restartPod_wait_terminates pod instance
                 (time_Now (world (snd (created pod st)))) fuel Hfetch Hsleep
                 (snd (created pod st)))
      as (err & st' & polls & tail & Hrun & Hcalls & Hpolls & Htail & Hbound).
    + lia.
    + unfold WaitForRestartTimeout, ConfigRestartInterval, Second. lia.
    + exists err, st', polls, tail. repeat split; try done.
      * eapply Forall_impl; [exact Hpolls |]. by intros c ->.
      * destruct Hbound as [-> | Hbound]; [simpl; lia |].
        unfold WaitForRestartTimeout, ConfigRestartInterval, Second in Hbound.
        lia.
  - exists (Some e), (snd (created pod st)), [], []. simpl.
    rewrite app_nil_r. repeat split; [by constructor | lia | by left].
Qed.

Lemma restartPod_returns_aux (fuel : nat) (pod : Pod) (st : St W) :
  fetchKeepsClock → sleepPauses → (152 ≤ fuel)%nat →
  ∃ err st', restartPod fuel pod st = Some (err, st').
Proof.
  intros Hfetch Hsleep Hfuel. rewrite restartPod_unfold.
  destruct (fst (created pod st)) as [instance|e]; [| by eexists _, _].
  edestruct (restartPod_wait_terminates pod instance
               (time_Now (world (snd (created pod st)))) fuel Hfetch Hsleep
               (snd (created pod st)))
    as (err & st' & polls & tail & Hrun & _).
  - lia.
  - unfold WaitForRestartTimeout, ConfigRestartInterval, Second. lia.
  - by eexists _, _.
Qed.

(** X14: the timeout is reported as a restart.  For an ownerless pod
    whose replacement is created and never seen running, the resolver
    returns [nil] and appends the name of the pod to [restarted],
    although no [Delete] was issued and the original is still there. *)
Theorem timeout_is_recorded_as_restarted (Inv : W → Prop) (fuel : nat)
    (restarted : list string) (pod instance : Pod) (st : St W) :
  OwnerReferences (PodMeta pod) = [] →
  fst (created pod st) = Ok instance →
  Inv (world (snd (created pod st))) →
  neverRuns Inv (Namespace (PodMeta instance)) (Name (PodMeta instance)) →
  sleepAdvances Inv →
  (152 ≤ fuel)%nat →
  ∃ st' polls,
    restartResourceFromPod fuel restarted pod st
    = Some ((None, restarted ++ [Name (PodMeta pod)]), st')
    ∧ calls st' = calls (snd (created pod st)) ++ polls
    ∧ Forall (λ c, c = pollOf instance) polls.
Proof.
  intros Hown Hcreated Hinv Hnever Hsleep Hfuel.
  rewrite restartResourceFromPod_ownerless by done.
  rewrite restartPod_unfold, Hcreated.
  edestruct (restartPod_wait_times_out Inv pod instance
               (time_Now (world (snd (created pod st)))) fuel Hnever Hsleep
               (snd (created pod st)))
    as (st' & polls & Hrun & Hcalls & Hpolls); [done | lia | |].
  - unfold WaitForRestartTimeout, ConfigRestartInterval, Second. lia.
  - rewrite Hrun. by exists st', polls.
Qed.

(** ** Pods of a controller that is restarted in place *)

Lemma restartResource_controller (fuel : nat) (kind name : string)
    (r : Resource) (pod : Pod) :
  controllerResource kind = Some r →
  getResourceType kind ≠ "Pod"
  ∧ restartResource fuel (getResourceType kind) name pod
    = restartController r name (Namespace (PodMeta pod)).
Proof.
  unfold controllerResource.
  repeat case_decide; intros [= <-]; subst kind; by split.
Qed.

Lemma restartController_ok (r : Resource) (namespace name : string)
    (st : St W) :
  controllerRestarts r namespace name →
  ∃ st', restartController r name namespace st = Some (None, st')
         ∧ calls st' = calls st
             ++ [mkCall VGet r namespace name;
                 mkCall VUpdate r namespace name].
Proof.
  intros [Hget Hupd].
  unfold restartController, bind, getController, updateController, request,
    timeNow.
  destruct (Hget (world st)) as (obj & Hobj & Hname).
  destruct (Apps_Get r namespace name (world st)) as [got w1].
  simpl in Hobj. subst got. simpl.
  specialize (Hupd w1
    (setRestartedAt obj (time_Format_RFC3339 (time_Now w1))) Hname).
  destruct (Apps_Update _ _ _ _) as [err w2]. simpl in Hupd. subst err.
  eexists. split; [done |]. simpl. by rewrite Hname, <- app_assoc.
Qed.

(** X15: two pods of one namespace owned by the same Deployment,
    StatefulSet or DaemonSet, in a cluster that answers its fetch and
    accepts its update, the key not yet recorded: the resolver on both
    returns [nil] twice, fetches and updates the controller once, for
    the first pod, and records the key once; for the second pod it
    issues no request. *)
Theorem controller_is_restarted_once (fuel : nat) (restarted : list string)
    (podA podB : Pod) (kind name namespace : string) (r : Resource)
    (st : St W) :
  let key := name +:+ "|" +:+ kind +:+ "|" +:+ namespace in
  controllerResource kind = Some r →
  Namespace (PodMeta podA) = namespace →
  Namespace (PodMeta podB) = namespace →
  OwnerReferences (PodMeta podA) = [mkOwnerReference kind name] →
  OwnerReferences (PodMeta podB) = [mkOwnerReference kind name] →
  controllerRestarts r namespace name →
  key ∉ restarted →
  ∃ st',
    resolveBoth fuel restarted podA podB st
    = Some ((None, None, restarted ++ [key]), st')
    ∧ calls st' = calls st
        ++ [mkCall VGet r namespace name; mkCall VUpdate r namespace name].
Proof.
  intros key Hkind HnsA HnsB HownA HownB Hok Hfresh.
  destruct (restartResource_controller fuel kind name r podA Hkind)
    as [Hpod HrunA].
  assert (HkeyA : matchKey (mkOwnerReference kind name) podA = key).
  { unfold matchKey, key. simpl. by rewrite HnsA. }
  assert (HkeyB : matchKey (mkOwnerReference kind name) podB = key).
  { unfold matchKey, key. simpl. by rewrite HnsB. }
  unfold resolveBoth, bind.
  rewrite restartResourceFromPod_owned by (by rewrite HownA).
  rewrite HownA, owners_step_fresh; [| done | by rewrite HkeyA].
  simpl Kind. simpl OwnerName. rewrite HrunA, HnsA.
  destruct (restartController_ok r namespace name st Hok)
    as (st1 & Hrun1 & Hcalls1).
  rewrite Hrun1, HkeyA. simpl.
  rewrite restartResourceFromPod_owned by (by rewrite HownB).
  rewrite HownB, owners_step_seen;
    [| done | rewrite HkeyB; apply elem_of_app; right; by left].
  simpl. eexists. split; [done |]. done.
Qed.

(** X19: the namespace is part of the key.  Two pods of different
    namespaces whose owner has the same kind and name, each namespace
    holding such a controller that can be restarted: the resolver on
    both restarts both controllers, one fetch and one update in each
    namespace, and records both keys. *)
Theorem controller_is_restarted_per_namespace (fuel : nat)
    (restarted : list string) (podA podB : Pod) (kind name : string)
    (r : Resource) (st : St W) :
  let nsA := Namespace (PodMeta podA) in
  let nsB := Namespace (PodMeta podB) in
  let keyA := name +:+ "|" +:+ kind +:+ "|" +:+ nsA in
  let keyB := name +:+ "|" +:+ kind +:+ "|" +:+ nsB in
  controllerResource kind = Some r →
  nsA ≠ nsB →
  OwnerReferences (PodMeta podA) = [mkOwnerReference kind name] →
  OwnerReferences (PodMeta podB) = [mkOwnerReference kind name] →
  controllerRestarts r nsA name →
  controllerRestarts r nsB name →
  keyA ∉ restarted → keyB ∉ restarted →
  ∃ st',
    resolveBoth fuel restarted podA podB st
    = Some ((None, None, restarted ++ [keyA; keyB]), st')
    ∧ calls st' = calls st
        ++ [mkCall VGet r nsA name; mkCall VUpdate r nsA name;
            mkCall VGet r nsB name; mkCall VUpdate r nsB name].
Proof.
  intros nsA nsB keyA keyB Hkind Hns HownA HownB HokA HokB HfreshA HfreshB.
  destruct (restartResource_controller fuel kind name r podA Hkind)
    as [Hpod HrunA].
  destruct (restartResource_controller fuel kind name r podB Hkind)
    as [_ HrunB].
  unfold resolveBoth, bind.
  rewrite restartResourceFromPod_owned by (by rewrite HownA).
  rewrite HownA, owners_step_fresh; [| done | done].
  simpl Kind. simpl OwnerName. rewrite HrunA.
  destruct (restartController_ok r nsA name st HokA)
    as (st1 & Hrun1 & Hcalls1).
  fold nsA. rewrite Hrun1. simpl.
  rewrite restartResourceFromPod_owned by (by rewrite HownB).
  rewrite HownB, owners_step_fresh; [| done |].
  2:{ change (keyB ∉ restarted ++ [keyA]).
      intros [Hin | Heq%list_elem_of_singleton]%elem_of_app; [done |].
      apply Hns. subst keyA keyB.
      by do 4 apply append_cancel_l in Heq. }
  simpl Kind. simpl OwnerName. rewrite HrunB.
  destruct (restartController_ok r nsB name st1 HokB)
    as (st2 & Hrun2 & Hcalls2).
  fold nsB. rewrite Hrun2. simpl.
  eexists. split.
  - change (matchKey (mkOwnerReference kind name) podA) with keyA.
    change (matchKey (mkOwnerReference kind name) podB) with keyB.
    by rewrite <- app_assoc.
  - by rewrite Hcalls2, Hcalls1, <- app_assoc.
Qed.

(** ** The whole scan *)

Lemma restartResourceFromPod_provenance (fuel : nat)
    (restarted : list string) (pod : Pod) (st : St W) out st' :
  restartResourceFromPod fuel restarted pod st = Some (out, st') →
  ∃ added, snd out = restarted ++ added ∧ Forall (recordedFor pod) added.
Proof.
  intros Hrun.
  destruct (OwnerReferences (PodMeta pod)) as [|o rest] eqn:Hown.
  - rewrite restartResourceFromPod_ownerless in Hrun by done.
    destruct (restartPod fuel pod st) as [[[e|] st1]|]; [| | done].
    + injection Hrun as <- _. exists []. by rewrite app_nil_r.
    + injection Hrun as <- _. exists [Name (PodMeta pod)].
      split; [done |]. constructor; [| done]. by left.
  - destruct (owned_pod_is_never_replaced_aux fuel restarted pod st)
      as (err & added & st1 & new & Hrun1 & _ & _ & Hadded).
    { by rewrite Hown. }
    rewrite Hrun1 in Hrun. injection Hrun as <- _.
    exists added. split; [done |].
    eapply Forall_impl; [exact Hadded |].
    intros entry (o' & Hin & Hkey & Htype & _). right. by exists o'.
Qed.

Lemma main_pods_outcome (fuel : nat) (items : list Pod) :
  ∀ allErrs restarted (st : St W) out st',
    main_pods fuel items allErrs restarted st = Some (out, st') →
    ∃ errs added,
      fst out = allErrs ++ errs
      ∧ snd out = restarted ++ added
      ∧ (name <$> errs)
          `sublist_of` ((λ pod, Name (PodMeta pod)) <$> candidates items)
      ∧ Forall (λ entry, ∃ pod, pod ∈ candidates items
                                ∧ recordedFor pod entry) added.
Proof.
  induction items as [|pod rest IH]; intros allErrs restarted st out st' Hrun.
  - injection Hrun as <- _. exists [], []. simpl. rewrite !app_nil_r.
    by repeat split.
  - rewrite candidates_cons. simpl in Hrun.
    destruct (strings_Contains _ _); simpl in Hrun; [| by eapply IH].
    unfold bind, main_restart, Printf in Hrun. unfold bind in Hrun.
    destruct (restartResourceFromPod _ _ _ _) as [[res st1]|] eqn:Hpod;
      [| done].
    apply restartResourceFromPod_provenance in Hpod as (added1 & Hres & Hadd1).
    assert (Hlift : ∀ added,
              Forall (λ entry, ∃ p, p ∈ candidates rest
                                    ∧ recordedFor p entry) added →
              Forall (λ entry, ∃ p, p ∈ pod :: candidates rest
                                    ∧ recordedFor p entry) (added1 ++ added)).
    { intros added Hadded. apply Forall_app. split.
      - eapply Forall_impl; [exact Hadd1 |].
        intros entry Hentry. exists pod. split; [by left | done].
      - eapply Forall_impl; [exact Hadded |].
        intros entry (p & Hp & Hentry). exists p. split; [by right | done]. }
    destruct (fst res) as [e|]; simpl in Hrun;
      apply IH in Hrun as (errs & added & Herrs & Hadded & Hsub & Hprov);
      rewrite Hres in Hadded.
    + exists (mkPodError (Name (PodMeta pod)) e :: errs), (added1 ++ added).
      split; [by rewrite Herrs, <- app_assoc |].
      split; [by rewrite Hadded, <- app_assoc |].
      split; [simpl; by constructor | by apply Hlift].
    + exists errs, (added1 ++ added).
      split; [done |]. split; [by rewrite Hadded, <- app_assoc |].
      split; [simpl; by constructor | by apply Hlift].
Qed.

(** X16: every entry of [restarted] after a run of [main] comes from a
    pod that passed the name filter: it is the name of such a pod that
    has no owner, or the key of an owner reference, not classified as
    "Pod", of such a pod. *)
Theorem restarted_entries_come_from_candidates (fuel : nat)
    (items : list Pod) (st : St W) (out : list podError * list string)
    (st' : St W) :
  main_pods fuel items [] [] st = Some (out, st') →
  ∀ entry, entry ∈ snd out →
    ∃ pod, pod ∈ candidates items ∧ recordedFor pod entry.
Proof.
  intros (errs & added & _ & -> & _ & Hprov)%main_pods_outcome entry Hin.
  rewrite Forall_forall in Hprov. by apply Hprov.
Qed.

(** X17: the error list of a run of [main] has at most one entry per
    selected pod, in the order of the scan: the names in the list form
    a subsequence of the names of the selected pods, so no error is
    attributed to a pod that was not selected and a failure drops no
    later pod from the scan. *)
Theorem errors_name_candidates_in_order (fuel : nat) (items : list Pod)
    (st : St W) (out : list podError * list string) (st' : St W) :
  main_pods fuel items [] [] st = Some (out, st') →
  (name <$> fst out)
    `sublist_of` ((λ pod, Name (PodMeta pod)) <$> candidates items)
  ∧ (length (fst out) ≤ length (candidates items))%nat.
Proof.
  intros (errs & added & -> & _ & Hsub & _)%main_pods_outcome. simpl.
  split; [done |].
  apply sublist_length in Hsub. by rewrite !length_fmap in Hsub.
Qed.

Lemma restartResourceFromPod_returns (fuel : nat) (restarted : list string)
    (pod : Pod) (st : St W) :
  fetchKeepsClock → sleepPauses → (152 ≤ fuel)%nat →
  ∃ out st', restartResourceFromPod fuel restarted pod st = Some (out, st').
Proof.
  intros Hfetch Hsleep Hfuel.
  destruct (OwnerReferences (PodMeta pod)) as [|o rest] eqn:Hown.
  - rewrite restartResourceFromPod_ownerless by done.
    destruct (restartPod_returns_aux fuel pod st Hfetch Hsleep Hfuel)
      as (err & st1 & Hrun).
    rewrite Hrun. destruct err; by eexists _, _.
  - destruct (owned_pod_is_never_replaced_aux fuel restarted pod st)
      as (err & added & st1 & new & Hrun1 & _).
    { by rewrite Hown. }
    by eexists _, _.
Qed.

(** X18: the scan always completes.  On a clock that no fetch turns
    back and that [time.Sleep] advances by at least its argument, the
    loop of [main] returns its error list and [restarted] for every list
    of pods and every behaviour of the cluster, once each pod is given
    fuel for 152 rounds of the polling loop: no failure of a restart
    ends the run. *)
Theorem main_pods_always_completes (fuel : nat) (items : list Pod)
    (allErrs : list podError) (restarted : list string) (st : St W) :
  fetchKeepsClock → sleepPauses → (152 ≤ fuel)%nat →
  ∃ out st', main_pods fuel items allErrs restarted st = Some (out, st').
Proof.
  intros Hfetch Hsleep Hfuel. revert allErrs restarted st.
  induction items as [|pod rest IH]; intros allErrs restarted st.
  - by eexists _, _.
  - simpl. destruct (strings_Contains _ _); simpl; [| apply IH].
    unfold bind, main_restart, Printf. unfold bind.
    destruct (restartResourceFromPod_returns fuel restarted pod
                {| world := world st; calls := calls st;
                   stdout := stdout st
                     ++ ["executing graceful restart on pod: "
                         +:+ Name (PodMeta pod) +:+ LF] |}
                Hfetch Hsleep Hfuel) as (res & st1 & Hrun).
    rewrite Hrun. destruct (fst res); simpl; apply IH.
Qed.

(** ** How often an entry is in [restarted] *)

Lemma ownerlessNamed_cons (key : string) (pod : Pod) (pods : list Pod) :
  ownerlessNamed key (pod :: pods)
  = ((if decide (OwnerReferences (PodMeta pod) = []
                 ∧ Name (PodMeta pod) = key) then 1 else 0)
     + ownerlessNamed key pods)%nat.
Proof.
  unfold ownerlessNamed. rewrite filter_cons. by case_decide.
Qed.

Lemma ownerlessNamed_none (key : string) (pods : list Pod) :
  (∀ pod, pod ∈ pods →
          OwnerReferences (PodMeta pod) = [] → Name (PodMeta pod) ≠ key) →
  ownerlessNamed key pods = 0%nat.
Proof.
  induction pods as [|pod pods IH]; intros Hnames; [done |].
  rewrite ownerlessNamed_cons, IH.
  - rewrite decide_False; [done |].
    intros [Hown Hname]. revert Hname. apply Hnames; [by left | done].
  - intros p Hp. apply Hnames. by right.
Qed.

Lemma potential_snoc (key entry : string) (restarted : list string) :
  (entry = key → key ∉ restarted) →
  (occurrences key (restarted ++ [entry])
   + (if decide (key ∈ restarted ++ [entry]) then 0 else 1)
   ≤ occurrences key restarted
     + (if decide (key ∈ restarted) then 0 else 1))%nat.
Proof.
  intros Hfresh. rewrite occurrences_snoc.
  destruct (decide (entry = key)) as [Heq|Hne].
  - rewrite (occurrences_absent key restarted) by auto. entry_cases.
  - entry_cases.
Qed.

Lemma owners_potential (fuel : nat) (pod : Pod) (key : string)
    (ownerRefs : list OwnerReference) :
  ∀ restarted (st : St W) out st',
    restartResourceFromPod_owners fuel pod ownerRefs restarted st
    = Some (out, st') →
    (occurrences key (snd out)
     + (if decide (key ∈ snd out) then 0 else 1)
     ≤ occurrences key restarted
       + (if decide (key ∈ restarted) then 0 else 1))%nat.
Proof.
  induction ownerRefs as [|o rest IH]; intros restarted st out st' Hrun.
  - injection Hrun as <- _. done.
  - destruct (decide (getResourceType (Kind o) = "Pod")) as [Hpod|Hpod].
    { rewrite owners_step_pod in Hrun by done. by eapply IH. }
    destruct (decide (matchKey o pod ∈ restarted)) as [Hseen|Hfresh].
    { rewrite owners_step_seen in Hrun by done. by eapply IH. }
    rewrite owners_step_fresh in Hrun by done.
    destruct (restartResource _ _ _ _ _) as [[[e|] st1]|]; [| | done].
    + injection Hrun as <- _. done.
    + apply IH in Hrun. etrans; [exact Hrun |].
      apply potential_snoc. by intros <-.
Qed.

Lemma restartResourceFromPod_potential (fuel : nat) (pod : Pod)
    (key : string) (restarted : list string) (st : St W) out st' :
  restartResourceFromPod fuel restarted pod st = Some (out, st') →
  (occurrences key (snd out)
   + (if decide (key ∈ snd out) then 0 else 1)
   ≤ occurrences key restarted
     + (if decide (key ∈ restarted) then 0 else 1)
     + (if decide (OwnerReferences (PodMeta pod) = []
                   ∧ Name (PodMeta pod) = key) then 1 else 0))%nat.
Proof.
  intros Hrun.
  destruct (OwnerReferences (PodMeta pod)) as [|o rest] eqn:Hown.
  - rewrite restartResourceFromPod_ownerless in Hrun by done.
    destruct (restartPod fuel pod st) as [[[e|] st1]|]; [| | done].
    + injection Hrun as <- _. simpl. lia.
    + injection Hrun as <- _. simpl.
      rewrite occurrences_snoc. entry_cases.
  - rewrite restartResourceFromPod_owned in Hrun by (by rewrite Hown).
    rewrite Hown in Hrun. apply (owners_potential _ _ key) in Hrun.
    entry_cases.
Qed.

Lemma restartResourceFromPod_bare (fuel : nat) (pod : Pod)
    (key : string) (restarted : list string) (st : St W) out st' :
  barFree key = true →
  restartResourceFromPod fuel restarted pod st = Some (out, st') →
  (occurrences key (snd out)
   ≤ occurrences key restarted
     + (if decide (OwnerReferences (PodMeta pod) = []
                   ∧ Name (PodMeta pod) = key) then 1 else 0))%nat.
Proof.
  intros Hbare Hrun.
  destruct (OwnerReferences (PodMeta pod)) as [|o rest] eqn:Hown.
  - rewrite restartResourceFromPod_ownerless in Hrun by done.
    destruct (restartPod fuel pod st) as [[[e|] st1]|]; [| | done].
    + injection Hrun as <- _. simpl. lia.
    + injection Hrun as <- _. simpl. rewrite occurrences_snoc.
      entry_cases.
  - destruct (owned_pod_is_never_replaced_aux fuel restarted pod st)
      as (err & added & st1 & new & Hrun1 & _ & _ & Hadded).
    { by rewrite Hown. }
    rewrite Hrun1 in Hrun. injection Hrun as <- _. simpl.
    rewrite occurrences_app, (occurrences_absent key added); [lia |].
    intros Hin. rewrite Forall_forall in Hadded.
    destruct (Hadded key Hin) as (o' & _ & Hkey & _).
    revert Hkey. unfold matchKey. by apply barFree_no_bar.
Qed.

Lemma main_pods_potential (fuel : nat) (key : string) (items : list Pod) :
  ∀ allErrs restarted (st : St W) out st',
    main_pods fuel items allErrs restarted st = Some (out, st') →
    (occurrences key (snd out)
     + (if decide (key ∈ snd out) then 0 else 1)
     ≤ occurrences key restarted
       + (if decide (key ∈ restarted) then 0 else 1)
       + ownerlessNamed key (candidates items))%nat
    ∧ (barFree key = true →
       (occurrences key (snd out)
        ≤ occurrences key restarted
          + ownerlessNamed key (candidates items))%nat).
Proof.
  induction items as [|pod rest IH]; intros allErrs restarted st out st' Hrun.
  - injection Hrun as <- _. simpl. split; intros; lia.
  - rewrite candidates_cons. simpl in Hrun.
    destruct (strings_Contains _ _); simpl in Hrun; [| by eapply IH].
    unfold bind, main_restart, Printf in Hrun. unfold bind in Hrun.
    destruct (restartResourceFromPod _ _ _ _) as [[res st1]|] eqn:Hpod;
      [| done].
    rewrite ownerlessNamed_cons.
    pose proof (restartResourceFromPod_potential _ _ key _ _ _ _ Hpod)
      as Hstep.
    assert (Hrest : main_pods fuel rest
                      (match fst res with
                       | Some e =>
                           allErrs ++ [mkPodError (Name (PodMeta pod)) e]
                       | None => allErrs
                       end) (snd res) st1 = Some (out, st')).
    { by destruct (fst res). }
    apply IH in Hrest as [Hall Hbare]. split; [lia |].
    intros Hkey. specialize (Hbare Hkey).
    pose proof (restartResourceFromPod_bare _ _ key _ _ _ _ Hkey Hpod). lia.
Qed.

(** C4 as the code has it: in the slice [restarted] that a run of
    [main] builds from empty, an entry occurs at most once more than
    there are ownerless pods among the selected ones that bear it as
    their name.  So an entry that no selected ownerless pod is named
    after, as every key [name|kind|namespace] of a controller is when
    pod names are free of the separator, occurs at most once; and an
    entry free of the separator, a bare pod name, occurs at most as
    often as there are selected ownerless pods of that name: once per
    such pod, not once per name. *)
Theorem restarted_entry_occurrences (fuel : nat) (items : list Pod)
    (key : string) (st : St W) (out : list podError * list string)
    (st' : St W) :
  main_pods fuel items [] [] st = Some (out, st') →
  (occurrences key (snd out)
   ≤ ownerlessNamed key (candidates items) + 1)%nat
  ∧ ((∀ pod, pod ∈ candidates items →
             OwnerReferences (PodMeta pod) = [] →
             Name (PodMeta pod) ≠ key) →
     (occurrences key (snd out) ≤ 1)%nat)
  ∧ (barFree key = true →
     (occurrences key (snd out) ≤ ownerlessNamed key (candidates items))%nat).
Proof.
  intros [Hall Hbare]%(main_pods_potential _ key).
  assert (Hzero : occurrences key [] = 0%nat) by done.
  rewrite Hzero in Hall, Hbare.
  rewrite (decide_False (P := key ∈ [])) in Hall by apply not_elem_of_nil.
  split; [case_decide; lia |].
  split; [| intros Hkey; specialize (Hbare Hkey); lia].
  intros Hnames.
  assert (Hnone : ownerlessNamed key (candidates items) = 0%nat)
    by by apply ownerlessNamed_none.
  rewrite Hnone in Hall. case_decide; lia.
Qed.

End Coverage.

(** * The further properties on concrete clusters *)

Lemma matchKey_injective_witness :
  (matchKey Manifest.stsOwner Stub.podSts
   = matchKey Manifest.stsOwner Stub.podSts' →
   Manifest.stsOwner = Manifest.stsOwner
   ∧ Namespace (PodMeta Stub.podSts) = Namespace (PodMeta Stub.podSts'))
  ∧ (∀ bare, barFree bare = true →
             bare ≠ matchKey Manifest.stsOwner Stub.podSts).
Proof.
  apply (matchKey_injective Manifest.stsOwner Manifest.stsOwner
           Stub.podSts Stub.podSts'); reflexivity.
Defined.

Lemma unsupported_owner_step_witness :
  restartResourceFromPod_owners (api := Manifest.client) 0 Stub.podJob
    [mkOwnerReference "Job" "database-backup-28391"] [] Stub.start
  = Some ((None, ["database-backup-28391|Job|default"]), Stub.start).
Proof.
  rewrite (unsupported_owner_step (api := Manifest.client) 0 Stub.podJob
             (mkOwnerReference "Job" "database-backup-28391") [] []
             Stub.start).
  - reflexivity.
  - intros Hin. elem_absurd Hin.
Defined.

Lemma kindless_owners_are_ignored_witness :
  restartResourceFromPod (api := Manifest.client) 0 [] Manifest.podKindless
    Stub.start
  = Some ((None, []), Stub.start).
Proof.
  apply (kindless_owners_are_ignored (api := Manifest.client) 0 []
           Manifest.podKindless Stub.start).
  - discriminate.
  - repeat constructor.
Defined.

Lemma restartController_fetch_failure_witness :
  restartController (api := Stub.clientset Stub.stuck) StatefulSets
    "nginx-database" "default" Stub.start
  = Some (Some "not found",
          answered Stub.start
            (mkCall VGet StatefulSets "default" "nginx-database") 0).
Proof.
  apply (restartController_fetch_failure (api := Stub.clientset Stub.stuck)
           StatefulSets "nginx-database" "default" "not found" 0 Stub.start).
  reflexivity.
Defined.

Lemma restartController_touches_annotation_witness :
  restartController (api := Manifest.client) StatefulSets "nginx-database"
    "default" Stub.start
  = Some (None,
          mkSt 0 [mkCall VGet StatefulSets "default" "nginx-database";
                  mkCall VUpdate StatefulSets "default" "nginx-database"] [])
  ∧ templateAnnotations
      (setRestartedAt (Stub.controller "nginx-database" "default" [])
         "2006-01-02T15:04:05Z")
      !! "kubectl.kubernetes.io/restartedAt"
    = Some "2006-01-02T15:04:05Z".
Proof.
  destruct (restartController_touches_annotation (api := Manifest.client)
              StatefulSets "nginx-database" "default"
              (Stub.controller "nginx-database" "default" []) 0 Stub.start
              eq_refl)
    as (Hrun & _ & _ & _ & _ & _ & _ & Hstamp & _).
  split; [exact Hrun | exact Hstamp].
Defined.

Lemma restartResource_targets_witness :
  ∃ err st' new,
    restartResource (api := Manifest.client) 0 "DaemonSet"
      "nginx-database-db01" Manifest.podDs Stub.start = Some (err, st')
    ∧ calls st' = calls Stub.start ++ new
    ∧ stdout st' = stdout Stub.start
    ∧ Forall (λ c, callResource c ∈ resourcesOf "DaemonSet"
                   ∧ callNamespace c = Namespace (PodMeta Manifest.podDs)
                   ∧ callVerb c ∈ [VGet; VUpdate]) new.
Proof.
  apply (restartResource_targets (api := Manifest.client) 0 "DaemonSet"
           "nginx-database-db01" Manifest.podDs Stub.start).
  discriminate.
Defined.

Lemma owned_pod_is_never_replaced_witness :
  ∃ err added st' new,
    restartResourceFromPod (api := Manifest.client) 0 [] Stub.podSts
      Stub.start
    = Some ((err, [] ++ added), st')
    ∧ calls st' = calls Stub.start ++ new
    ∧ Forall (λ c, callResource c ≠ Pods
                   ∧ callNamespace c = Namespace (PodMeta Stub.podSts)
                   ∧ callVerb c ∈ [VGet; VUpdate]) new
    ∧ Forall (λ entry, ∃ o, o ∈ OwnerReferences (PodMeta Stub.podSts)
                            ∧ entry = matchKey o Stub.podSts
                            ∧ getResourceType (Kind o) ≠ "Pod"
                            ∧ entry ∉ []) added.
Proof.
  apply (owned_pod_is_never_replaced (api := Manifest.client) 0 []
           Stub.podSts Stub.start).
  discriminate.
Defined.

Lemma create_failure_is_reported_witness :
  restartResourceFromPod (api := Manifest.refusing) 0 [] Stub.podAlpha
    Stub.start
  = Some ((Some "pods is forbidden: exceeded quota", []),
          mkSt 0 [mkCall VCreate Pods "default"
                         "nginx-pod-database-alpha-xxxx"] [])
  ∧ calls (snd (created (api := Manifest.refusing) Stub.podAlpha Stub.start))
    = [mkCall VCreate Pods "default" "nginx-pod-database-alpha-xxxx"].
Proof.
  apply (create_failure_is_reported (api := Manifest.refusing) 0 []
           Stub.podAlpha "pods is forbidden: exceeded quota" Stub.start);
    reflexivity.
Defined.

Lemma running_replacement_deletes_original_witness :
  ∃ st',
    restartResourceFromPod (api := Manifest.client) 1 [] Stub.podAlpha
      Stub.start
    = Some ((None, ["nginx-pod-database-alpha"]), st')
    ∧ world st' = 0
    ∧ calls st'
      = [mkCall VCreate Pods "default" "nginx-pod-database-alpha-xxxx";
         mkCall VGet Pods "default" "nginx-pod-database-alpha-xxxx";
         mkCall VDelete Pods "default" "nginx-pod-database-alpha"].
Proof.
  apply (running_replacement_deletes_original (api := Manifest.client) 1 []
           Stub.podAlpha
           (mkPod (Stub.meta "nginx-pod-database-alpha-xxxx" "default" [])
                  (mkPodSpec []) PodPending)
           (mkPod (Stub.meta "nginx-pod-database-alpha-xxxx" "default" [])
                  (mkPodSpec []) PodRunning)
           0 Stub.start); first [reflexivity | lia].
Defined.

Lemma original_deleted_only_after_running_witness :
  (∃ e, fst (created (api := Manifest.client) Stub.podAlpha Stub.start)
        = Err e
        ∧ @None string = Some e
        ∧ mkSt 0
            [mkCall VCreate Pods "default" "nginx-pod-database-alpha-xxxx";
             mkCall VGet Pods "default" "nginx-pod-database-alpha-xxxx";
             mkCall VDelete Pods "default" "nginx-pod-database-alpha"]
            ["replacing pod: nginx-pod-database-alpha with "
             +:+ "nginx-pod-database-alpha-xxxx in namespace default"
             +:+ LF]
          = snd (created (api := Manifest.client) Stub.podAlpha Stub.start))
  ∨ ∃ instance n,
      fst (created (api := Manifest.client) Stub.podAlpha Stub.start)
      = Ok instance
      ∧ (n < 1)%nat
      ∧ (∀ i, (i < n)%nat →
              ¬ showsRunning (api := Manifest.client) instance
                  (afterPolls (api := Manifest.client) instance i
                     (snd (created (api := Manifest.client) Stub.podAlpha
                             Stub.start))))
      ∧ ((@None string = None
          ∧ [mkCall VCreate Pods "default" "nginx-pod-database-alpha-xxxx";
             mkCall VGet Pods "default" "nginx-pod-database-alpha-xxxx";
             mkCall VDelete Pods "default" "nginx-pod-database-alpha"]
            = calls (snd (created (api := Manifest.client) Stub.podAlpha
                            Stub.start))
              ++ replicate n (pollOf instance))
         ∨ (showsRunning (api := Manifest.client) instance
              (afterPolls (api := Manifest.client) instance n
                 (snd (created (api := Manifest.client) Stub.podAlpha
                         Stub.start)))
            ∧ [mkCall VCreate Pods "default" "nginx-pod-database-alpha-xxxx";
               mkCall VGet Pods "default" "nginx-pod-database-alpha-xxxx";
               mkCall VDelete Pods "default" "nginx-pod-database-alpha"]
              = calls (snd (created (api := Manifest.client) Stub.podAlpha
                              Stub.start))
                ++ replicate (S n) (pollOf instance)
                ++ [deleteOf Stub.podAlpha])).
Proof.
  apply (original_deleted_only_after_running (api := Manifest.client) 1
           Stub.podAlpha Stub.start None
           (mkSt 0
              [mkCall VCreate Pods "default" "nginx-pod-database-alpha-xxxx";
               mkCall VGet Pods "default" "nginx-pod-database-alpha-xxxx";
               mkCall VDelete Pods "default" "nginx-pod-database-alpha"]
              ["replacing pod: nginx-pod-database-alpha with "
               +:+ "nginx-pod-database-alpha-xxxx in namespace default"
               +:+ LF])).
  reflexivity.
Defined.

Lemma restartPod_returns_within_timeout_witness :
  ∃ err st' polls tail,
    restartPod (api := Stub.clientset Stub.stuck) 152 Stub.podAlpha
      Stub.start = Some (err, st')
    ∧ calls st'
      = calls (snd (created (api := Stub.clientset Stub.stuck) Stub.podAlpha
                      Stub.start)) ++ polls ++ tail
    ∧ Forall (λ c, callVerb c = VGet ∧ callResource c = Pods) polls
    ∧ (length polls ≤ 151)%nat
    ∧ (tail = [] ∨ tail = [deleteOf Stub.podAlpha]).
Proof.
  apply (restartPod_returns_within_timeout
           (api := Stub.clientset Stub.stuck) 152 Stub.podAlpha Stub.start).
  - intros w namespace name. simpl. lia.
  - intros w d. simpl. lia.
  - lia.
Defined.

Lemma timeout_is_recorded_as_restarted_witness :
  ∃ st' polls,
    restartResourceFromPod (api := Stub.clientset Stub.stuck) 152 []
      Stub.podAlpha Stub.start
    = Some ((None, [] ++ ["nginx-pod-database-alpha"]), st')
    ∧ calls st'
      = calls (snd (created (api := Stub.clientset Stub.stuck) Stub.podAlpha
                      Stub.start)) ++ polls
    ∧ Forall (λ c, c = mkCall VGet Pods "default"
                         "nginx-pod-database-alpha-xxxx") polls.
Proof.
  apply (timeout_is_recorded_as_restarted
           (api := Stub.clientset Stub.stuck) (λ _, True) 152 []
           Stub.podAlpha
           (mkPod (Stub.meta "nginx-pod-database-alpha-xxxx" "default" [])
                  (mkPodSpec []) PodPending)
           Stub.start).
  - reflexivity.
  - reflexivity.
  - exact I.
  - intros w _. split; [exact I |]. split; [simpl; lia |].
    intros p [= <-]. discriminate.
  - intros w d _. split; [exact I | simpl; lia].
  - lia.
Defined.

Lemma controller_is_restarted_once_witness :
  ∃ st',
    resolveBoth (api := Manifest.client) 0 [] Stub.podSts Stub.podSts'
      Stub.start
    = Some ((None, None, [] ++ ["nginx-database|StatefulSet|default"]), st')
    ∧ calls st'
      = calls Stub.start
        ++ [mkCall VGet StatefulSets "default" "nginx-database";
            mkCall VUpdate StatefulSets "default" "nginx-database"].
Proof.
  apply (controller_is_restarted_once (api := Manifest.client) 0 []
           Stub.podSts Stub.podSts' "StatefulSet" "nginx-database" "default"
           StatefulSets Stub.start); try reflexivity.
  - split.
    + intros w. eexists. split; reflexivity.
    + intros w obj Hname. simpl. rewrite Hname. reflexivity.
  - apply not_elem_of_nil.
Defined.

Lemma restarted_entries_come_from_candidates_witness :
  ∃ out st',
    main_pods (api := Manifest.client) 1 Manifest.listed [] [] Stub.start
    = Some (out, st')
    ∧ snd out = ["nginx-database-db01|DaemonSet|default";
                 "nginx-database|StatefulSet|default";
                 "nginx-pod-database-alpha"]
    ∧ ∀ entry, entry ∈ snd out →
        ∃ pod, pod ∈ candidates Manifest.listed ∧ recordedFor pod entry.
Proof.
  eexists _, _. split; [vm_compute; reflexivity |].
  split; [reflexivity |].
  eapply (restarted_entries_come_from_candidates (api := Manifest.client) 1
            Manifest.listed Stub.start).
  vm_compute; reflexivity.
Defined.

Lemma errors_name_candidates_in_order_witness :
  ∃ out st',
    main_pods (api := Manifest.refusing) 1 Manifest.listed [] []
      Stub.start
    = Some (out, st')
    ∧ name <$> fst out = ["nginx-pod-database-alpha"]
    ∧ (name <$> fst out)
        `sublist_of` ((λ pod, Name (PodMeta pod))
                        <$> candidates Manifest.listed)
    ∧ (length (fst out) ≤ length (candidates Manifest.listed))%nat.
Proof.
  eexists _, _. split; [vm_compute; reflexivity |].
  split; [reflexivity |].
  eapply (errors_name_candidates_in_order (api := Manifest.refusing) 1
            Manifest.listed Stub.start).
  vm_compute; reflexivity.
Defined.

Lemma main_pods_always_completes_witness :
  ∃ out st',
    main_pods (api := Stub.clientset Stub.stuck) 152 Manifest.listed [] []
      Stub.start
    = Some (out, st').
Proof.
  apply (main_pods_always_completes (api := Stub.clientset Stub.stuck) 152
           Manifest.listed [] [] Stub.start).
  - intros w namespace name. simpl. lia.
  - intros w d. simpl. lia.
  - lia.
Defined.

Lemma controller_is_restarted_per_namespace_witness :
  ∃ st',
    resolveBoth (api := Stub.clientset Manifest.twoNamespaces) 0 []
      Stub.podSts Manifest.podStsStaging Stub.start
    = Some ((None, None,
             [] ++ ["nginx-database|StatefulSet|default";
                    "nginx-database|StatefulSet|staging"]), st')
    ∧ calls st'
      = calls Stub.start
        ++ [mkCall VGet StatefulSets "default" "nginx-database";
            mkCall VUpdate StatefulSets "default" "nginx-database";
            mkCall VGet StatefulSets "staging" "nginx-database";
            mkCall VUpdate StatefulSets "staging" "nginx-database"].
Proof.
  apply (controller_is_restarted_per_namespace
           (api := Stub.clientset Manifest.twoNamespaces) 0 []
           Stub.podSts Manifest.podStsStaging "StatefulSet" "nginx-database"
           StatefulSets Stub.start); try reflexivity.
  - discriminate.
  - split.
    + intros w. eexists. split; reflexivity.
    + intros w obj Hname. simpl. rewrite Hname. reflexivity.
  - split.
    + intros w. eexists. split; reflexivity.
    + intros w obj Hname. simpl. rewrite Hname. reflexivity.
  - apply not_elem_of_nil.
  - apply not_elem_of_nil.
Defined.

Lemma restarted_entry_occurrences_witness :
  ∃ out st',
    main_pods (api := Stub.clientset Stub.rollout) 1
      [Stub.podOld; Stub.podAlpha; Stub.podOld'; Stub.podNew;
       Stub.podAlphaStaging] [] [] Stub.start
    = Some (out, st')
    ∧ snd out = ["nginx-database-5d59d67564|ReplicaSet|default";
                 "nginx-pod-database-alpha";
                 "nginx-database-7c5ddbdf54|ReplicaSet|default";
                 "nginx-pod-database-alpha"]
    ∧ ownerlessNamed "nginx-pod-database-alpha"
        (candidates [Stub.podOld; Stub.podAlpha; Stub.podOld'; Stub.podNew;
                     Stub.podAlphaStaging]) = 2%nat
    ∧ (occurrences "nginx-pod-database-alpha" (snd out) ≤ 2)%nat.
Proof.
  eexists _, _. split; [vm_compute; reflexivity |].
  split; [reflexivity |]. split; [reflexivity |].
  eapply (restarted_entry_occurrences (api := Stub.clientset Stub.rollout) 1
            [Stub.podOld; Stub.podAlpha; Stub.podOld'; Stub.podNew;
             Stub.podAlphaStaging]
            "nginx-pod-database-alpha" Stub.start).
  - vm_compute; reflexivity.
  - reflexivity.
Defined.
